(** * galata_ai.py: manifest download, rewrite and batch driver

    A shallow embedding of [src/galata_ai.py] and of the parts of the
    Python standard library it calls ([str] methods, [re.search] on the
    four patterns of the script, [urllib.parse.urljoin], [os.path.join],
    [os.makedirs], [open]/[write]), followed by the properties of the
    locator, the rewriter, the job runner and the batch loop.

    Python [str] values are sequences of Unicode code points: a character
    is its code point in [N], a string a [list N].

    What the model leaves out or fixes:
    - a [print] call raises when the console refuses its text (a character
      that the encoding of the console lacks), and does nothing else that
      the program can see.  The calls of the batch loop are outside every
      [try] block and are modelled, each with its text.  The calls inside
      the [try] block of [download_stream_manifest] are left out of the
      job: there an error of the console is caught like every other
      exception and gives a failed outcome, and a statement that derives
      the success of a job assumes a console that accepts every text;
    - exceptions outside the class [Exception] (a keyboard interrupt);
    - the library functions follow CPython 3.11;
    - [subdivision] is the text [str(subdivision)], and the delay between
      jobs is a duration in seconds, so not negative;
    - path names are taken as the program writes them. *)

From Stdlib Require Import ZArith NArith List Ascii String Bool Lia.
From stdpp Require Import base list gmap.

Local Open Scope list_scope.

(** ** Python strings *)

Abbreviation char := N (only parsing).
Abbreviation str := (list N) (only parsing).

Definition ch (a : ascii) : char := N_of_ascii a.
Definition lit (s : string) : str := List.map N_of_ascii (list_ascii_of_string s).
Arguments ch : simpl never.
Arguments lit : simpl never.

(** Results of fallible code: a value or a raised exception.  An exception
    carries its class name and [str(e)]. *)
Inductive exn : Type := Exn (cls : str) (msg : str).

Definition exn_str (e : exn) : str := match e with Exn _ m => m end.

Inductive result (A : Type) : Type :=
| Ok (a : A)
| Raise (e : exn).
Arguments Ok {A} a.
Arguments Raise {A} e.

Definition rbind {A B} (r : result A) (f : A -> result B) : result B :=
  match r with Ok a => f a | Raise e => Raise e end.

Module Str.

(** [str.isspace] on one character, the test behind [str.strip()] and the
    regular expression class [\s] on [str] patterns. *)
Definition isspace (c : char) : bool :=
  ((9 <=? c) && (c <=? 13) || (28 <=? c) && (c <=? 32) || (c =? 133) || (c =? 160)
   || (c =? 5760) || (8192 <=? c) && (c <=? 8202) || (c =? 8232) || (c =? 8233)
   || (c =? 8239) || (c =? 8287) || (c =? 12288))%N.

Fixpoint lstrip_by (p : char -> bool) (s : str) : str :=
  match s with
  | c :: s' => if p c then lstrip_by p s' else s
  | [] => []
  end.

Definition rstrip_by (p : char -> bool) (s : str) : str :=
  rev (lstrip_by p (rev s)).

(** [s.strip()] *)
Definition strip (s : str) : str := rstrip_by isspace (lstrip_by isspace s).

Definition eqb (a b : str) : bool := bool_decide (a = b).

(** [s.startswith(p)] *)
Fixpoint startswith (p s : str) : bool :=
  match p, s with
  | [], _ => true
  | a :: p', b :: s' => (a =? b)%N && startswith p' s'
  | _ :: _, [] => false
  end.

(** [s.endswith(p)] *)
Definition endswith (p s : str) : bool := startswith (rev p) (rev s).

(** [c in s] for a one-character [c] *)
Definition contains (c : char) (s : str) : bool := existsb (N.eqb c) s.

(** [s.split(sep)] for a one-character separator: never empty. *)
Fixpoint split (sep : char) (s : str) : list str :=
  match s with
  | [] => [[]]
  | c :: s' =>
      if (c =? sep)%N then [] :: split sep s'
      else match split sep s' with
           | w :: ws => (c :: w) :: ws
           | [] => [[c]]
           end
  end.

(** [sep.join(l)] for a one-character separator *)
Fixpoint join (sep : char) (l : list str) : str :=
  match l with
  | [] => []
  | [x] => x
  | x :: l' => x ++ sep :: join sep l'
  end.

(** [s.partition(c)] when [c] occurs: the text before and after the first
    occurrence; [None] when it does not occur. *)
Fixpoint cut (c : char) (s : str) : option (str * str) :=
  match s with
  | [] => None
  | x :: s' =>
      if (x =? c)%N then Some ([], s')
      else match cut c s' with
           | Some (a, b) => Some (x :: a, b)
           | None => None
           end
  end.

(** [s.replace(c, "")] *)
Definition remove (c : char) (s : str) : str := List.filter (fun x => negb (x =? c)%N) s.

(** ASCII [str.lower] *)
Definition lower_char (c : char) : char :=
  if ((65 <=? c) && (c <=? 90))%N then (c + 32)%N else c.
Definition lower (s : str) : str := List.map lower_char s.

(** [pat in s] for a string [pat] *)
Fixpoint infix (pat s : str) : bool :=
  startswith pat s || match s with [] => false | _ :: s' => infix pat s' end.

(** [str(n)] for an [int] *)
Fixpoint digits (fuel : nat) (n : N) (acc : str) : str :=
  match fuel with
  | O => acc
  | S fuel' =>
      let acc' := (48 + n mod 10)%N :: acc in
      if (n <? 10)%N then acc' else digits fuel' (n / 10)%N acc'
  end.

Definition of_N (n : N) : str := digits (S (N.to_nat (N.log2 n))) n [].

Definition of_int (z : Z) : str :=
  if (z <? 0)%Z then ch "-" :: of_N (Z.abs_N z) else of_N (Z.abs_N z).

Definition of_nat (n : nat) : str := of_N (N.of_nat n).

End Str.

(** ** [urllib.parse] (CPython 3.11): [urlsplit], [urlparse], [urlunparse], [urljoin]

    Two validation helpers of [urlsplit] only decide whether a [ValueError]
    is raised: [_check_bracketed_netloc] (IPv6/IPvFuture literals between
    square brackets) and the NFKC test of [_checknetloc] (non-ASCII hosts).
    They are kept as oracles of the library; every other step follows the
    library's code. *)

Record UrlChecks : Type := {
  check_bracketed_netloc : str -> option exn;
  checknetloc_nfkc : str -> option exn
}.

Module Url.

Record SplitResult : Type := {
  s_scheme : str; s_netloc : str; s_path : str; s_query : str; s_fragment : str
}.

Record ParseResult : Type := {
  scheme : str; netloc : str; path : str; params : str; query : str; fragment : str
}.

Definition uses_relative : list str :=
  List.map lit [""; "ftp"; "http"; "gopher"; "nntp"; "imap"; "wais"; "file"; "https";
                "shttp"; "mms"; "prospero"; "rtsp"; "rtspu"; "sftp"; "svn"; "svn+ssh";
                "ws"; "wss"]%string.

Definition uses_netloc : list str :=
  List.map lit [""; "ftp"; "http"; "gopher"; "nntp"; "telnet"; "imap"; "wais"; "file";
                "mms"; "https"; "shttp"; "snews"; "prospero"; "rtsp"; "rtspu"; "rsync";
                "svn"; "svn+ssh"; "sftp"; "nfs"; "git"; "git+ssh"; "ws"; "wss"]%string.

Definition uses_params : list str :=
  List.map lit [""; "ftp"; "hdl"; "prospero"; "http"; "imap"; "https"; "shttp"; "rtsp";
                "rtspu"; "sip"; "sips"; "mms"; "sftp"; "tel"]%string.

Definition mem (s : str) (l : list str) : bool := existsb (Str.eqb s) l.
Arguments mem : simpl never.

Definition is_ascii_alpha (c : char) : bool :=
  ((65 <=? c) && (c <=? 90) || (97 <=? c) && (c <=? 122))%N.

(** membership in [scheme_chars] *)
Definition scheme_char (c : char) : bool :=
  is_ascii_alpha c || ((48 <=? c) && (c <=? 57) || (c =? 43) || (c =? 45) || (c =? 46))%N.

(** membership in [_WHATWG_C0_CONTROL_OR_SPACE] *)
Definition c0_or_space (c : char) : bool := (c <=? 32)%N.

(** the loop over [_UNSAFE_URL_BYTES_TO_REMOVE] *)
Definition remove_unsafe (s : str) : str :=
  Str.remove 10%N (Str.remove 13%N (Str.remove 9%N s)).

Definition is_delim (c : char) : bool := ((c =? 47) || (c =? 63) || (c =? 35))%N.

(** [_splitnetloc(url, 2)] applied to the text after the two slashes *)
Fixpoint splitnetloc (s : str) : str * str :=
  match s with
  | [] => ([], [])
  | c :: s' =>
      if is_delim c then ([], s)
      else let '(a, b) := splitnetloc s' in (c :: a, b)
  end.

Definition isascii (s : str) : bool := forallb (fun c => (c <? 128)%N) s.

Definition checknetloc (K : UrlChecks) (netloc : str) : option exn :=
  match netloc with
  | [] => None
  | _ => if isascii netloc then None else checknetloc_nfkc K netloc
  end.

Definition invalid_ipv6 : exn := Exn (lit "ValueError") (lit "Invalid IPv6 URL").

(** The scheme test of [urlsplit]: a colon after a non-empty run of
    scheme characters that starts with an ASCII letter. *)
Definition split_scheme (url scheme : str) : str * str :=
  match Str.cut (ch ":") url with
  | Some (c :: pre, post) =>
      if is_ascii_alpha c && forallb scheme_char (c :: pre)
      then (Str.lower (c :: pre), post)
      else (scheme, url)
  | _ => (scheme, url)
  end.

(** The [if url[:2] == '//'] block of [urlsplit]. *)
Definition split_netloc (K : UrlChecks) (url : str) : result (str * str) :=
  if Str.startswith (lit "//") url then
    let '(netloc, url) := splitnetloc (skipn 2 url) in
    let lb := Str.contains (ch "[") netloc in
    let rb := Str.contains (ch "]") netloc in
    if lb && negb rb || rb && negb lb then Raise invalid_ipv6
    else if lb && rb then
      match check_bracketed_netloc K netloc with
      | Some e => Raise e
      | None => Ok (netloc, url)
      end
    else Ok (netloc, url)
  else Ok ([], url).

(** [url.split(c, 1)] when [c] occurs, the url and the empty string
    otherwise. *)
Definition split_at (c : char) (url : str) : str * str :=
  match Str.cut c url with Some (a, b) => (a, b) | None => (url, []) end.

Definition urlsplit (K : UrlChecks) (url scheme : str) : result SplitResult :=
  let url := Str.lstrip_by c0_or_space url in
  let scheme := Str.rstrip_by c0_or_space (Str.lstrip_by c0_or_space scheme) in
  let url := remove_unsafe url in
  let scheme := remove_unsafe scheme in
  let '(scheme, url) := split_scheme url scheme in
  rbind (split_netloc K url) (fun '(netloc, url) =>
    let '(url, fragment) := split_at (ch "#") url in
    let '(url, query) := split_at (ch "?") url in
    match checknetloc K netloc with
    | Some e => Raise e
    | None =>
        Ok {| s_scheme := scheme; s_netloc := netloc; s_path := url;
              s_query := query; s_fragment := fragment |}
    end).

(** [url.rfind('/')] as the text up to and including the last slash, and
    the text after it; [None] when there is no slash. *)
Definition rcut_slash (s : str) : option (str * str) :=
  match Str.cut (ch "/") (rev s) with
  | Some (a, b) => Some (rev b ++ [ch "/"], rev a)
  | None => None
  end.

Definition splitparams (url : str) : str * str :=
  match rcut_slash url with
  | Some (dir, last) =>
      match Str.cut (ch ";") last with
      | Some (a, b) => (dir ++ a, b)
      | None => (url, [])
      end
  | None =>
      match Str.cut (ch ";") url with
      | Some (a, b) => (a, b)
      | None => (url, [])
      end
  end.

Definition urlparse (K : UrlChecks) (url scheme : str) : result ParseResult :=
  rbind (urlsplit K url scheme) (fun r =>
    let '(url, params) :=
      if mem (s_scheme r) uses_params && Str.contains (ch ";") (s_path r)
      then splitparams (s_path r) else (s_path r, []) in
    Ok {| scheme := s_scheme r; netloc := s_netloc r; path := url; params := params;
          query := s_query r; fragment := s_fragment r |}).

Definition nonempty (s : str) : bool := match s with [] => false | _ => true end.

Definition urlunsplit (scheme netloc url query fragment : str) : str :=
  let url :=
    if nonempty netloc
       || (nonempty scheme && mem scheme uses_netloc && negb (Str.startswith (lit "//") url))
    then
      let url := if nonempty url && negb (Str.startswith (lit "/") url)
                 then ch "/" :: url else url in
      lit "//" ++ netloc ++ url
    else url in
  let url := if nonempty scheme then scheme ++ ch ":" :: url else url in
  let url := if nonempty query then url ++ ch "?" :: query else url in
  if nonempty fragment then url ++ ch "#" :: fragment else url.

Definition urlunparse (p : ParseResult) : str :=
  let url := if nonempty (params p) then path p ++ ch ";" :: params p else path p in
  urlunsplit (scheme p) (netloc p) url (query p) (fragment p).

(** [segments[1:-1] = filter(None, segments[1:-1])] *)
Definition filter_middle (segments : list str) : list str :=
  match segments with
  | [] => []
  | x :: rest =>
      match rev rest with
      | [] => [x]
      | z :: mid => x :: List.filter nonempty (rev mid) ++ [z]
      end
  end.

(** the loop building [resolved_path] *)
Fixpoint resolve (segments resolved_path : list str) : list str :=
  match segments with
  | [] => resolved_path
  | seg :: segments' =>
      if Str.eqb seg (lit "..") then resolve segments' (removelast resolved_path)
      else if Str.eqb seg (lit ".") then resolve segments' resolved_path
      else resolve segments' (resolved_path ++ [seg])
  end.

Definition urljoin (K : UrlChecks) (base url : str) : result str :=
  match base, url with
  | [], _ => Ok url
  | _, [] => Ok base
  | _, _ =>
      rbind (urlparse K base []) (fun b =>
      rbind (urlparse K url (scheme b)) (fun r =>
        if negb (Str.eqb (scheme r) (scheme b)) || negb (mem (scheme r) uses_relative)
        then Ok url
        else if mem (scheme r) uses_netloc && nonempty (netloc r)
        then Ok (urlunparse r)
        else
          let netloc := if mem (scheme r) uses_netloc then netloc b else netloc r in
          if negb (nonempty (path r)) && negb (nonempty (params r)) then
            let query := if nonempty (query r) then query r else query b in
            Ok (urlunparse {| scheme := scheme r; netloc := netloc; path := path b;
                              params := params b; query := query;
                              fragment := fragment r |})
          else
            let base_parts := Str.split (ch "/") (path b) in
            let base_parts :=
              if nonempty (List.last base_parts []) then removelast base_parts
              else base_parts in
            let segments :=
              if Str.startswith (lit "/") (path r) then Str.split (ch "/") (path r)
              else filter_middle (base_parts ++ Str.split (ch "/") (path r)) in
            let resolved_path := resolve segments [] in
            let resolved_path :=
              if Str.eqb (List.last segments []) (lit ".")
                 || Str.eqb (List.last segments []) (lit "..")
              then resolved_path ++ [[]] else resolved_path in
            let joined := Str.join (ch "/") resolved_path in
            Ok (urlunparse {| scheme := scheme r; netloc := netloc;
                              path := if nonempty joined then joined else lit "/";
                              params := params r; query := query r;
                              fragment := fragment r |})))
  end.

End Url.

(** ** [re.search] with [re.IGNORECASE] on the patterns of the script

    The patterns are sequences of single-character tests, greedy stars and
    one greedy option over single characters, with one capturing group.
    The matcher backtracks the way the [re] module does: a star first takes
    as many characters as it can and gives them back one at a time. *)

Module Re.

Inductive cclass : Type :=
| Literal (c : char)                       (* a literal character *)
| NotIn (cs : list char) (space : bool).   (* a negated set, with or without \s *)

(** A literal of the pattern (lower case in all four patterns) against a
    character of the text under IGNORECASE: equal after lowering, or one
    of the extra case equivalents the module knows for [i], [k] and [s]. *)
Definition literal_ignorecase (p c : char) : bool :=
  ((c =? p) || ((97 <=? p) && (p <=? 122) && (c + 32 =? p))
   || ((p =? 105) && ((c =? 304) || (c =? 305)))
   || ((p =? 107) && (c =? 8490))
   || ((p =? 115) && (c =? 383)))%N.

Definition test (k : cclass) (c : char) : bool :=
  match k with
  | Literal p => literal_ignorecase p c
  | NotIn cs space => negb (existsb (N.eqb c) cs) && negb (space && Str.isspace c)
  end.

Inductive atom : Type :=
| Chr (k : cclass)
| Star (k : cclass)
| Opt (k : cclass)
| GroupOpen
| GroupClose.

Definition pattern := list atom.

(** The state of group 1: whether it is open, and its text so far in
    reverse. *)
Definition gstate : Type := bool * str.

Definition push (g : gstate) (c : char) : gstate :=
  if fst g then (true, c :: snd g) else g.

(** Match [p] at the start of [s]; the result is the text of group 1. *)
Fixpoint mt (p : pattern) (s : str) (g : gstate) {struct p} : option str :=
  match p with
  | [] => Some (rev (snd g))
  | Chr k :: p' =>
      match s with
      | c :: s' => if test k c then mt p' s' (push g c) else None
      | [] => None
      end
  | Opt k :: p' =>
      match s with
      | c :: s' =>
          if test k c then
            match mt p' s' (push g c) with
            | Some r => Some r
            | None => mt p' s g
            end
          else mt p' s g
      | [] => mt p' s g
      end
  | Star k :: p' =>
      (fix star (s : str) (g : gstate) {struct s} : option str :=
         match s with
         | c :: s' =>
             if test k c then
               match star s' (push g c) with
               | Some r => Some r
               | None => mt p' s g
               end
             else mt p' s g
         | [] => mt p' [] g
         end) s g
  | GroupOpen :: p' => mt p' s (true, [])
  | GroupClose :: p' => mt p' s (false, snd g)
  end.

(** [re.search(p, text, re.IGNORECASE).group(1)], [None] when there is no
    match: the leftmost position where [p] matches wins. *)
Fixpoint search (p : pattern) (text : str) : option str :=
  match mt p text (false, []) with
  | Some r => Some r
  | None =>
      match text with
      | [] => None
      | _ :: text' => search p text'
      end
  end.

Definition lits (s : string) : pattern := List.map (fun c => Chr (Literal c)) (lit s).

(** the double quote character *)
Definition dquote : char := 34%N.

Definition not_dquote : cclass := NotIn [dquote] false.
Definition not_squote : cclass := NotIn [ch "'"] false.
Definition not_delim : cclass := NotIn [ch "<"; ch ">"; dquote; ch "'"] true.

End Re.

(** ** The manifest locator (lines 67-87 of the script) *)

(** [m3u8_patterns], in the order of the script.  Each has one group holding
    a body: any run of characters of a class, the literal text .m3u8, any
    run of characters of the same class.
    - [pattern_src_dquote]: src= and a double quote, the group with the
      class of all characters but the double quote, a double quote;
    - [pattern_src_squote]: the same with single quotes;
    - [pattern_url_dquote]: a double quote, the group holding http, an
      optional s, :// and the body over all characters but the double
      quote, a double quote;
    - [pattern_url_bare]: the group alone, holding http, an optional s, ://
      and the body over all characters but white space, angle brackets and
      both quotes. *)
Definition m3u8_body (k : Re.cclass) : Re.pattern :=
  Re.Star k :: Re.lits ".m3u8" ++ [Re.Star k].

Definition https_prefix : Re.pattern :=
  Re.lits "http" ++ Re.Opt (Re.Literal (ch "s")) :: Re.lits "://".

Definition pattern_src_dquote : Re.pattern :=
  Re.lits "src=" ++ Re.Chr (Re.Literal Re.dquote) :: Re.GroupOpen ::
  m3u8_body Re.not_dquote ++ [Re.GroupClose; Re.Chr (Re.Literal Re.dquote)].

Definition pattern_src_squote : Re.pattern :=
  Re.lits "src='" ++ Re.GroupOpen ::
  m3u8_body Re.not_squote ++ Re.GroupClose :: Re.lits "'".

Definition pattern_url_dquote : Re.pattern :=
  Re.Chr (Re.Literal Re.dquote) :: Re.GroupOpen :: https_prefix ++
  m3u8_body Re.not_dquote ++ [Re.GroupClose; Re.Chr (Re.Literal Re.dquote)].

Definition pattern_url_bare : Re.pattern :=
  Re.GroupOpen :: https_prefix ++ m3u8_body Re.not_delim ++ [Re.GroupClose].

Definition m3u8_patterns : list Re.pattern :=
  [pattern_src_dquote; pattern_src_squote; pattern_url_dquote; pattern_url_bare].

(** The [for pattern in m3u8_patterns] loop: the first pattern with a match
    sets [m3u8_url] and breaks; [m3u8_url] stays [None] otherwise. *)
Fixpoint find_m3u8_url (patterns : list Re.pattern) (text : str) : option str :=
  match patterns with
  | [] => None
  | pattern :: patterns' =>
      match Re.search pattern text with
      | Some group1 => Some group1
      | None => find_m3u8_url patterns' text
      end
  end.

(** The loop followed by the test [if not m3u8_url]: [None] and the empty
    string both count as not found. *)
Definition locate (html : str) : option str :=
  match find_m3u8_url m3u8_patterns html with
  | Some (c :: u) => Some (c :: u)
  | _ => None
  end.

(** ** The manifest rewriter (lines 103-123 of the script) *)

Definition newline : char := 10%N.

(** The body of the [for line in lines] loop: the text appended to
    [processed_lines] for one line. *)
Definition process_line (K : UrlChecks) (m3u8_url line : str) : result str :=
  let stripped_line := Str.strip line in
  if Url.nonempty stripped_line && negb (Str.startswith (lit "#") stripped_line) then
    if negb (Str.startswith (lit "http://") stripped_line)
       && negb (Str.startswith (lit "https://") stripped_line)
    then Url.urljoin K m3u8_url stripped_line
    else Ok stripped_line
  else Ok stripped_line.

Fixpoint process_lines (K : UrlChecks) (m3u8_url : str) (lines processed_lines : list str)
  : result (list str) :=
  match lines with
  | [] => Ok processed_lines
  | line :: lines' =>
      rbind (process_line K m3u8_url line) (fun l =>
        process_lines K m3u8_url lines' (processed_lines ++ [l]))
  end.

(** Split on the newline character, process every line, join again. *)
Definition rewrite (K : UrlChecks) (m3u8_content m3u8_url : str) : result str :=
  rbind (process_lines K m3u8_url (Str.split newline m3u8_content) [])
        (fun processed_lines => Ok (Str.join newline processed_lines)).

(** ** [os.path.join], [os.makedirs] and files

    The file system is a finite map from path names, as the program writes
    them, to nodes.  Names are compared as written: [.], [..], repeated
    slashes and symbolic links are not resolved. *)

Module Os.

Inductive node : Type :=
| Dir
| File (content : str).

Abbreviation FS := (gmap (list N) node).

Definition slash : char := ch "/".

(** [posixpath.join(a, *p)] *)
Fixpoint path_join (a : str) (p : list str) : str :=
  match p with
  | [] => a
  | b :: p' =>
      if Str.startswith [slash] b then path_join b p'
      else if negb (Url.nonempty a) || Str.endswith [slash] a then path_join (a ++ b) p'
      else path_join (a ++ slash :: b) p'
  end.

(** The non-empty proper prefixes of a name that end just before a slash,
    shortest first, then the name itself. *)
Fixpoint prefixes (pre s : str) : list str :=
  match s with
  | [] => [pre]
  | c :: s' =>
      if (c =? slash)%N
      then (if Url.nonempty pre then [pre] else []) ++ prefixes (pre ++ [c]) s'
      else prefixes (pre ++ [c]) s'
  end.

Definition os_error (cls : string) (name : str) : exn :=
  Exn (lit cls) (lit cls ++ lit ": '" ++ name ++ lit "'").

(** Create the directories of the list one after the other; an existing
    directory is kept, a file in the way is an error. *)
Fixpoint mkdirs (names : list str) (fs : FS) : option exn * FS :=
  match names with
  | [] => (None, fs)
  | name :: names' =>
      match fs !! name with
      | Some Dir => mkdirs names' fs
      | Some (File _) =>
          (Some (os_error (match names' with
                           | [] => "FileExistsError"
                           | _ => "NotADirectoryError"
                           end) name), fs)
      | None => mkdirs names' (<[name := Dir]> fs)
      end
  end.

(** [os.makedirs(name, exist_ok=True)] *)
Definition makedirs (name : str) (fs : FS) : option exn * FS :=
  match name with
  | [] => (Some (os_error "FileNotFoundError" name), fs)
  | _ => mkdirs (prefixes [] name) fs
  end.

(** The directory part of a name: the text before its last slash. *)
Definition parent (name : str) : option str :=
  match Str.cut slash (rev name) with
  | Some (_, d) => Some (rev d)
  | None => None
  end.

(** [open(name, 'w')]: the file is created, or emptied when it exists. *)
Definition open_w (name : str) (fs : FS) : option exn * FS :=
  match name with
  | [] => (Some (os_error "FileNotFoundError" name), fs)
  | _ =>
      match fs !! name with
      | Some Dir => (Some (os_error "IsADirectoryError" name), fs)
      | _ =>
          match parent name with
          | Some (c :: d) =>
              match fs !! (c :: d) with
              | Some Dir => (None, <[name := File []]> fs)
              | Some (File _) => (Some (os_error "NotADirectoryError" name), fs)
              | None => (Some (os_error "FileNotFoundError" name), fs)
              end
          | _ => (None, <[name := File []]> fs)
          end
      end
  end.

(** [f.write(content)] and the close of the [with] block.  A failure to
  encode or to store the content is a fault of the world, see [fs_call]. *)
Definition write (name content : str) (fs : FS) : option exn * FS :=
  (None, <[name := File content]> fs).

End Os.

(** ** The outside world

    Every call that leaves the program is recorded in a trace.  The network
    is an oracle: the response to a request, and whether a call fails with
    an exception (time-out, connection error, permission error, full disk),
    may depend on everything that happened before. *)

Inductive Event : Type :=
| EvMakedirs (path : str)
| EvCreateScraper
| EvGet (url : str) (headers : list (str * str))
| EvOpen (path : str)
| EvWrite (path : str) (content : str)
| EvSleep (seconds : N).

Record Response : Type := { status_code : Z; text : str }.

Record Env : Type := {
  url_checks : UrlChecks;
  fault : list Event -> option exn;
  respond : list Event -> Response;
  console : str -> option exn   (* what [print] raises on a text, if anything *)
}.

Record World : Type := { fs : Os.FS; trace : list Event }.

(** Computations that act on the world and may raise. *)
Definition M (A : Type) : Type := World -> result A * World.

Definition ret {A} (a : A) : M A := fun w => (Ok a, w).

Definition bind {A B} (m : M A) (f : A -> M B) : M B :=
  fun w => match m w with
           | (Ok a, w') => f a w'
           | (Raise e, w') => (Raise e, w')
           end.

Definition lift {A} (r : result A) : M A := fun w => (r, w).

(** [try: body except Exception as e: handler(e)] *)
Definition try_except {A} (body : M A) (handler : exn -> A) : World -> A * World :=
  fun w => match body w with
           | (Ok a, w') => (a, w')
           | (Raise e, w') => (handler e, w')
           end.

Notation "'do' x <- c1 ; c2" := (bind c1 (fun x => c2))
  (at level 10, x name, c1 at level 100, c2 at level 200).
Notation "'run' c1 ; c2" := (bind c1 (fun _ => c2))
  (at level 10, c1 at level 100, c2 at level 200).

(** A call that acts on the file system: the event is logged; the world may
    make the call fail, and then nothing changes; otherwise the operation
    runs and may fail on its own. *)
Definition fs_call (E : Env) (ev : Event) (op : Os.FS -> option exn * Os.FS) : M unit :=
  fun w =>
    let tr := trace w ++ [ev] in
    match fault E tr with
    | Some e => (Raise e, {| fs := fs w; trace := tr |})
    | None =>
        let '(r, fs') := op (fs w) in
        (match r with Some e => Raise e | None => Ok tt end, {| fs := fs'; trace := tr |})
    end.

Definition os_makedirs (E : Env) (path : str) : M unit :=
  fs_call E (EvMakedirs path) (Os.makedirs path).

Definition create_scraper (E : Env) : M unit :=
  fs_call E EvCreateScraper (fun fs => (None, fs)).

Definition open_w (E : Env) (path : str) : M unit :=
  fs_call E (EvOpen path) (Os.open_w path).

Definition write (E : Env) (path content : str) : M unit :=
  fs_call E (EvWrite path content) (Os.write path content).

(** [scraper.get(url, headers=headers, timeout=30)] *)
Definition scraper_get (E : Env) (url : str) (headers : list (str * str)) : M Response :=
  fun w =>
    let tr := trace w ++ [EvGet url headers] in
    (match fault E tr with
     | Some e => Raise e
     | None => Ok (respond E tr)
     end, {| fs := fs w; trace := tr |}).

(** [time.sleep(delay)] *)
Definition sleep (seconds : N) : World -> World :=
  fun w => {| fs := fs w; trace := trace w ++ [EvSleep seconds] |}.

(** [print(text)]: the world stays as it is; the call raises when the
    console refuses the text. *)
Definition print (E : Env) (text : str) : M unit :=
  fun w => (match console E text with Some e => Raise e | None => Ok tt end, w).

(** A step that cannot raise. *)
Definition call {A} (step : World -> A * World) : M A :=
  fun w => let '(a, w') := step w in (Ok a, w').

(** ** The stream job runner: [download_stream_manifest] *)

Record Outcome : Type := {
  success : bool;
  message : str;
  file_path : option str;   (* [None] is Python's [None] *)
  m3u8_url : option str     (* [None]: the key is absent from the dictionary *)
}.

Definition failure (message : str) : Outcome :=
  {| success := false; message := message; file_path := None; m3u8_url := None |}.

Definition embed_url_of (stream_id : str) : str :=
  lit "https://embed.galata.ai/embed/" ++ stream_id.

Definition embed_headers (referer : str) : list (str * str) :=
  [ (lit "User-Agent",
     lit "Mozilla/5.0 (Windows NT 10.0; Win64; x64) AppleWebKit/537.36 (KHTML, like Gecko) Chrome/120.0.0.0 Safari/537.36");
    (lit "Accept",
     lit "text/html,application/xhtml+xml,application/xml;q=0.9,image/avif,image/webp,*/*;q=0.8");
    (lit "Accept-Language", lit "tr-TR,tr;q=0.9,en-US;q=0.8,en;q=0.7");
    (lit "Referer", referer);
    (lit "Connection", lit "keep-alive");
    (lit "Upgrade-Insecure-Requests", lit "1");
    (lit "Sec-Fetch-Dest", lit "iframe");
    (lit "Sec-Fetch-Mode", lit "navigate");
    (lit "Sec-Fetch-Site", lit "cross-site") ].

(** The path of the folder and of the output file of a job. *)
Definition folder_path_of (country subdivision folder_name : str) : str :=
  Os.path_join country [subdivision; folder_name].

Definition output_file_of (country subdivision folder_name stream_id : str) : str :=
  Os.path_join (folder_path_of country subdivision folder_name) [stream_id ++ lit ".m3u8"].

(** The start of the [try] block and Step 1 of the script: the folder is
    created, the scraper is set up, the embed page is requested. *)
Definition fetch_embed_page (E : Env) (stream_id referer folder_path : str) : M Response :=
  run os_makedirs E folder_path;
  run create_scraper E;
  scraper_get E (embed_url_of stream_id) (embed_headers referer).

(** Step 3: the manifest is requested, with the embed URL as referer. *)
Definition fetch_m3u8 (E : Env) (stream_id m3u8_url : str) : M Response :=
  scraper_get E m3u8_url [(lit "Referer", embed_url_of stream_id)].

(** Step 5: the output file is opened for writing and written. *)
Definition write_output (E : Env) (output_file processed_content : str) : M unit :=
  run open_w E output_file;
  write E output_file processed_content.

(** The body of the [try] block.  [subdivision] is the text [str(subdivision)];
    the [print] calls of the block are left out (see the head of the file). *)
Definition download_body (E : Env) (stream_id referer country subdivision folder_name : str)
  : M Outcome :=
  let folder_path := folder_path_of country subdivision folder_name in
  do response <- fetch_embed_page E stream_id referer folder_path;
  if negb (status_code response =? 200)%Z then
    ret (failure (lit "Failed to fetch embed page. HTTP Status: "
                  ++ Str.of_int (status_code response)))
  else
    match locate (text response) with
    | None => ret (failure (lit "M3U8 URL not found in embed page"))
    | Some m3u8_url =>
        do m3u8_response <- fetch_m3u8 E stream_id m3u8_url;
        if negb (status_code m3u8_response =? 200)%Z then
          ret (failure (lit "Failed to fetch M3U8 file. HTTP Status: "
                        ++ Str.of_int (status_code m3u8_response)))
        else
          let m3u8_content := text m3u8_response in
          do processed_content <- lift (rewrite (url_checks E) m3u8_content m3u8_url);
          let output_file := Os.path_join folder_path [stream_id ++ lit ".m3u8"] in
          run write_output E output_file processed_content;
          ret {| success := true;
                 message := lit "M3U8 file successfully downloaded and processed";
                 file_path := Some output_file;
                 m3u8_url := Some m3u8_url |}
    end.

Definition download_stream_manifest (E : Env)
  (stream_id referer country subdivision folder_name : str) : World -> Outcome * World :=
  try_except (download_body E stream_id referer country subdivision folder_name)
             (fun e => failure (lit "Error: " ++ exn_str e)).

(** ** The batch loop: [process_all_streams] *)

Record Stream : Type := {
  country : str;
  subdivision : str;
  folder_name : str;
  stream_id : str;
  name : str;
  referer : str
}.

Record FailedStream : Type := {
  failed_name : str;
  failed_location : str;
  failed_stream_id : str;
  failed_error : str
}.

Record Summary : Type := {
  total : nat;
  successful : nat;
  failed : nat;
  failed_streams : list FailedStream
}.

Definition location_of (stream : Stream) : str :=
  country stream ++ lit "/" ++ subdivision stream ++ lit "/" ++ folder_name stream.

Definition run_stream (E : Env) (stream : Stream) : World -> Outcome * World :=
  download_stream_manifest E (stream_id stream) (referer stream) (country stream)
                           (subdivision stream) (folder_name stream).

(** [c * 80] *)
Definition rule (c : char) : str := List.repeat c 80.

(** The two marks of lines 199 and 208. *)
Definition check_mark : char := 10003%N.
Definition ballot_x : char := 10007%N.

(** The body of the [for idx, stream in enumerate(streams, 1)] loop after
    the six values of the record are read (lines 186-213): [len_streams] is
    [len(streams)], the counters and the list of failures are threaded
    through.  The delay is a duration in whole seconds. *)
Definition process_stream (E : Env) (len_streams : nat) (delay : N) (idx : nat)
  (stream : Stream) (successful failed : nat) (failed_streams : list FailedStream)
  : M (nat * nat * list FailedStream) :=
  run print E (newline :: lit "[" ++ Str.of_nat idx ++ lit "/" ++ Str.of_nat len_streams
               ++ lit "] Processing: " ++ name stream ++ lit " (" ++ country stream
               ++ lit "/" ++ subdivision stream ++ lit "/" ++ folder_name stream ++ lit ")");
  run print E (rule (ch "-"));
  do result <- call (run_stream E stream);
  do counts <-
    (if success result then
       run print E (check_mark :: lit " SUCCESS: " ++ name stream);
       ret (S successful, failed, failed_streams)
     else
       run print E (ballot_x :: lit " FAILED: " ++ name stream ++ lit " - " ++ message result);
       ret (successful, S failed,
            failed_streams ++
              [{| failed_name := name stream;
                  failed_location := location_of stream;
                  failed_stream_id := stream_id stream;
                  failed_error := message result |}]));
  run (if (idx <? len_streams)%nat then
         run print E (lit "[INFO] Waiting " ++ Str.of_N delay
                      ++ lit " seconds before next request...");
         call (fun w => (tt, sleep delay w))
       else ret tt);
  ret counts.

(** The loop over streams whose six values are there; [idx] is the index
    of the first stream of [todo]. *)
Fixpoint process_loop (E : Env) (len_streams : nat) (delay : N) (idx : nat)
  (todo : list Stream) (successful failed : nat) (failed_streams : list FailedStream)
  : M (nat * nat * list FailedStream) :=
  match todo with
  | [] => ret (successful, failed, failed_streams)
  | stream :: todo' =>
      do counts <- process_stream E len_streams delay idx stream successful failed
                                  failed_streams;
      let '(successful, failed, failed_streams) := counts in
      process_loop E len_streams delay (S idx) todo' successful failed failed_streams
  end.

(** The loop of lines 225-227 over the failures. *)
Fixpoint print_failed (E : Env) (failed_streams : list FailedStream) : M unit :=
  match failed_streams with
  | [] => ret tt
  | stream :: rest =>
      run print E (lit "  - " ++ failed_name stream ++ lit " (" ++ failed_location stream
                   ++ lit "/" ++ failed_stream_id stream ++ lit ")");
      run print E (lit "    Error: " ++ failed_error stream);
      print_failed E rest
  end.

(** Lines 216-234: the summary is printed and returned. *)
Definition summarise (E : Env) (len_streams successful failed : nat)
  (failed_streams : list FailedStream) : M Summary :=
  run print E (newline :: rule (ch "="));
  run print E (lit "SUMMARY");
  run print E (rule (ch "="));
  run print E (lit "Total streams: " ++ Str.of_nat len_streams);
  run print E (lit "Successful: " ++ Str.of_nat successful);
  run print E (lit "Failed: " ++ Str.of_nat failed);
  run (match failed_streams with
       | [] => ret tt
       | _ :: _ =>
           run print E (newline :: lit "Failed streams:");
           print_failed E failed_streams
       end);
  ret {| total := len_streams; successful := successful;
         failed := failed; failed_streams := failed_streams |}.

(** [process_all_streams] once the configuration is loaded (lines 169-234),
    on the streams of a configuration whose records have the six values. *)
Definition process_all_streams (E : Env) (streams : list Stream) (delay : N) : M Summary :=
  run print E (lit "[INFO] Loaded " ++ Str.of_nat (List.length streams)
               ++ lit " streams from config file");
  run print E (rule (ch "="));
  do counts <- process_loop E (List.length streams) delay 1 streams 0 0 [];
  let '(successful, failed, failed_streams) := counts in
  summarise E (List.length streams) successful failed failed_streams.

(** ** Reference resolution as RFC 3986 defines it

    The specification asks for resolution per RFC 3986, section 5.  This
    module follows the text of the RFC, not the Python library: the
    components of Appendix B, the transformation of 5.2.2 (strict), the
    merge of 5.2.3, the removal of dot segments of 5.2.4 and the
    recomposition of 5.3.  A component that is absent is [None]; an empty
    one is [Some []]. *)

Module Rfc3986.

Record uri : Type := {
  scheme : option str;
  authority : option str;
  path : str;
  query : option str;
  fragment : option str
}.

(** The longest prefix whose characters all pass the test, and the rest. *)
Fixpoint span (p : char -> bool) (s : str) : str * str :=
  match s with
  | [] => ([], [])
  | c :: s' => if p c then let '(a, b) := span p s' in (c :: a, b) else ([], s)
  end.

Definition none_of (cs : str) (c : char) : bool := negb (existsb (N.eqb c) cs).

(** Appendix B: scheme, authority, path, query and fragment. *)
Definition parse (s : str) : uri :=
  let '(pre, rest) := span (none_of (lit ":/?#")) s in
  let '(scheme, s1) :=
    if Url.nonempty pre && Str.startswith (lit ":") rest
    then (Some pre, skipn 1 rest) else (None, s) in
  let '(authority, s2) :=
    if Str.startswith (lit "//") s1
    then let '(a, r) := span (none_of (lit "/?#")) (skipn 2 s1) in (Some a, r)
    else (None, s1) in
  let '(path, s3) := span (none_of (lit "?#")) s2 in
  let '(query, s4) :=
    if Str.startswith (lit "?") s3
    then let '(q, r) := span (none_of (lit "#")) (skipn 1 s3) in (Some q, r)
    else (None, s3) in
  let fragment := if Str.startswith (lit "#") s4 then Some (skipn 1 s4) else None in
  {| scheme := scheme; authority := authority; path := path;
     query := query; fragment := fragment |}.

(** 5.2.4, step 2C: drop the last segment of the output buffer and the
    slash before it, if any. *)
Definition remove_last_segment (output : str) : str :=
  match Str.cut (ch "/") (rev output) with
  | Some (_, b) => rev b
  | None => []
  end.

(** 5.2.4, step 2E: the first path segment of the input buffer, with its
    initial slash if any, up to the next slash. *)
Definition first_segment (input : str) : str * str :=
  match input with
  | [] => ([], [])
  | c :: s' =>
      let '(a, b) := span (none_of (lit "/")) s' in (c :: a, b)
  end.

(** 5.2.4: the loop over the input buffer; the buffer gets shorter at each
    step, so its length plus one is enough fuel. *)
Fixpoint remove_dots (fuel : nat) (input output : str) : str :=
  match fuel with
  | O => output
  | S fuel' =>
      if negb (Url.nonempty input) then output
      else if Str.startswith (lit "../") input then remove_dots fuel' (skipn 3 input) output
      else if Str.startswith (lit "./") input then remove_dots fuel' (skipn 2 input) output
      else if Str.startswith (lit "/./") input then remove_dots fuel' (skipn 2 input) output
      else if Str.eqb input (lit "/.") then remove_dots fuel' (lit "/") output
      else if Str.startswith (lit "/../") input
      then remove_dots fuel' (skipn 3 input) (remove_last_segment output)
      else if Str.eqb input (lit "/..")
      then remove_dots fuel' (lit "/") (remove_last_segment output)
      else if Str.eqb input (lit ".") || Str.eqb input (lit "..")
      then remove_dots fuel' [] output
      else let '(seg, rest) := first_segment input in
           remove_dots fuel' rest (output ++ seg)
  end.

Definition remove_dot_segments (p : str) : str := remove_dots (S (List.length p)) p [].

(** 5.2.3 *)
Definition merge (base : uri) (ref_path : str) : str :=
  match authority base, path base with
  | Some _, [] => ch "/" :: ref_path
  | _, _ =>
      match Str.cut (ch "/") (rev (path base)) with
      | Some (_, b) => rev b ++ ch "/" :: ref_path
      | None => ref_path
      end
  end.

(** 5.2.2, with a strict parser *)
Definition transform (base r : uri) : uri :=
  match scheme r with
  | Some _ =>
      {| scheme := scheme r; authority := authority r;
         path := remove_dot_segments (path r); query := query r;
         fragment := fragment r |}
  | None =>
      match authority r with
      | Some _ =>
          {| scheme := scheme base; authority := authority r;
             path := remove_dot_segments (path r); query := query r;
             fragment := fragment r |}
      | None =>
          match path r with
          | [] =>
              {| scheme := scheme base; authority := authority base;
                 path := path base;
                 query := match query r with Some q => Some q | None => query base end;
                 fragment := fragment r |}
          | _ =>
              {| scheme := scheme base; authority := authority base;
                 path := if Str.startswith (lit "/") (path r)
                         then remove_dot_segments (path r)
                         else remove_dot_segments (merge base (path r));
                 query := query r;
                 fragment := fragment r |}
          end
      end
  end.

(** 5.3 *)
Definition recompose (t : uri) : str :=
  match scheme t with Some s => s ++ lit ":" | None => [] end
  ++ match authority t with Some a => lit "//" ++ a | None => [] end
  ++ path t
  ++ match query t with Some q => ch "?" :: q | None => [] end
  ++ match fragment t with Some f => ch "#" :: f | None => [] end.

(** The target of reference [r] against the base [base]. *)
Definition resolve (base r : str) : str := recompose (transform (parse base) (parse r)).

End Rfc3986.

(** ** The configuration file and its records (lines 158-184 of the script)

    [process_all_streams] opens the configuration file, parses it with
    [json.load] and reads six keys from every record before it starts the
    job.  The parser is a parameter; the parsed value is taken to be what
    the script reads: a list of objects whose values are strings. *)

Abbreviation record := (gmap (list N) (list N)) (only parsing).

(** [stream[key]]: a missing key raises [KeyError], whose text is the key
    between single quotes. *)
Definition getitem (stream : record) (key : string) : result str :=
  match stream !! lit key with
  | Some v => Ok v
  | None => Raise (Exn (lit "KeyError") (lit "'" ++ lit key ++ lit "'"))
  end.

(** Lines 179-184: the six keys, in the order the script reads them. *)
Definition read_stream (stream : record) : result Stream :=
  rbind (getitem stream "country") (fun country =>
  rbind (getitem stream "subdivision") (fun subdivision =>
  rbind (getitem stream "folder_name") (fun folder_name =>
  rbind (getitem stream "stream_id") (fun stream_id =>
  rbind (getitem stream "name") (fun name =>
  rbind (getitem stream "referer") (fun referer =>
    Ok {| country := country; subdivision := subdivision; folder_name := folder_name;
          stream_id := stream_id; name := name; referer := referer |})))))).

(** The loop of lines 178-213 over the records as parsed: reading a record
    may raise, and nothing catches it. *)
Fixpoint process_records (E : Env) (len_streams : nat) (delay : N) (idx : nat)
  (todo : list record) (successful failed : nat) (failed_streams : list FailedStream)
  : M (nat * nat * list FailedStream) :=
  match todo with
  | [] => ret (successful, failed, failed_streams)
  | stream :: todo' =>
      do s <- lift (read_stream stream);
      do counts <- process_stream E len_streams delay idx s successful failed failed_streams;
      let '(successful, failed, failed_streams) := counts in
      process_records E len_streams delay (S idx) todo' successful failed failed_streams
  end.

(** [open(config_file, 'r')] and the read of the whole file. *)
Definition open_r (name : str) (fs : Os.FS) : result str :=
  match fs !! name with
  | Some (Os.File content) => Ok content
  | Some Os.Dir => Raise (Os.os_error "IsADirectoryError" name)
  | None =>
      match Os.parent name with
      | Some (c :: d) =>
          match fs !! (c :: d) with
          | Some (Os.File _) => Raise (Os.os_error "NotADirectoryError" name)
          | _ => Raise (Os.os_error "FileNotFoundError" name)
          end
      | _ => Raise (Os.os_error "FileNotFoundError" name)
      end
  end.

Definition exn_class (e : exn) : str := match e with Exn cls _ => cls end.

(** The [try] block of lines 159-161. *)
Definition load_streams (json_load : str -> result (list record)) (config_file : str)
  (fs : Os.FS) : result (list record) :=
  rbind (open_r config_file fs) json_load.

(** [process_all_streams(config_file, delay)] from its first line.  A
    missing file and invalid JSON are reported on the console and give the
    result [None]; every other exception of the [try] block leaves the
    function, and so does an exception of the loop or of a [print]. *)
Definition process_config_file (E : Env) (json_load : str -> result (list record))
  (config_file : str) (delay : N) : M (option Summary) :=
  fun w =>
    match load_streams json_load config_file (fs w) with
    | Raise e =>
        if Str.eqb (exn_class e) (lit "FileNotFoundError") then
          (run print E (lit "[ERROR] Config file '" ++ config_file ++ lit "' not found!");
           ret None) w
        else if Str.eqb (exn_class e) (lit "JSONDecodeError") then
          (run print E (lit "[ERROR] Invalid JSON in config file: " ++ exn_str e);
           ret None) w
        else (Raise e, w)
    | Ok streams =>
        (run print E (lit "[INFO] Loaded " ++ Str.of_nat (List.length streams)
                      ++ lit " streams from config file");
         run print E (rule (ch "="));
         do counts <- process_records E (List.length streams) delay 1 streams 0 0 [];
         let '(successful, failed, failed_streams) := counts in
         do summary <- summarise E (List.length streams) successful failed failed_streams;
         ret (Some summary)) w
    end.

(** ** Notions used in the statements *)

(** [nonl s]: the string has no newline character. *)
Definition nonl (s : str) : Prop := ~ In newline s.

Definition nonl_parse (p : Url.ParseResult) : Prop :=
  nonl (Url.scheme p) /\ nonl (Url.netloc p) /\ nonl (Url.path p)
  /\ nonl (Url.params p) /\ nonl (Url.query p) /\ nonl (Url.fragment p).

(** The lines of a text, as the rewriter splits it. *)
Definition lines (t : str) : list str := Str.split newline t.

(** The kinds of lines the specification speaks of, on the trimmed content. *)
Definition blank (line : str) : bool := negb (Url.nonempty (Str.strip line)).
Definition comment (line : str) : bool := Str.startswith (lit "#") (Str.strip line).
Definition absolute (line : str) : bool :=
  Str.startswith (lit "http://") (Str.strip line)
  || Str.startswith (lit "https://") (Str.strip line).


(** A library whose two host validations accept every host. *)
Definition no_checks : UrlChecks :=
  {| check_bracketed_netloc := fun _ => None; checknetloc_nfkc := fun _ => None |}.

(** The base URL of the examples of the specification. *)
Definition example_base : str := lit "https://host/path/manifest.m3u8".

(** [has_m3u8 s]: the text holds the manifest extension, in any case. *)
Definition has_m3u8 (s : str) : bool := Str.infix (lit ".m3u8") (Str.lower s).

(** The state of group 1 after the characters of [w] went by. *)
Definition pushes (g : Re.gstate) (w : str) : Re.gstate := fold_left Re.push w g.

(** [capture_ok p]: matched at the start of a text, the pattern captures a
    piece of that text which holds the extension. *)
Definition capture_ok (p : Re.pattern) : Prop :=
  forall s r, Re.mt p s (false, []) = Some r ->
              has_m3u8 r = true /\ exists a b, s = a ++ r ++ b.

(** The example of the specification: the attribute src, its value between
    double quotes. *)
Definition example_url : str := lit "https://cdn.example/x.m3u8".
Definition example_src : str := lit "src=" ++ Re.dquote :: example_url ++ [Re.dquote].

(** [same_files a b]: the two file systems hold the same regular files with
    the same contents. *)
Definition same_files (a b : Os.FS) : Prop :=
  forall p c, a !! p = Some (Os.File c) <-> b !! p = Some (Os.File c).

(** A single path component: not empty, no slash. *)
Definition plain (x : str) : bool := Url.nonempty x && negb (Str.contains Os.slash x).

Definition is_write (ev : Event) : bool :=
  match ev with EvWrite _ _ => true | _ => false end.

(** A server that answers from a table of pages, and with status 404 for
    every other URL; no call fails. *)
Definition requested (tr : list Event) : str :=
  match List.last tr EvCreateScraper with
  | EvGet url _ => url
  | _ => []
  end.

Fixpoint serve (pages : list (str * str)) (url : str) : Response :=
  match pages with
  | [] => {| status_code := 404; text := lit "Not Found" |}
  | (u, body) :: pages' =>
      if Str.eqb u url then {| status_code := 200; text := body |} else serve pages' url
  end.

Definition env_of (pages : list (str * str)) : Env :=
  {| url_checks := no_checks;
     fault := fun _ => None;
     respond := fun tr => serve pages (requested tr);
     console := fun _ => None |}.

Definition example_page : str := lit "<video controls " ++ example_src ++ lit "></video>".

Definition example_manifest : str :=
  lit "#EXTM3U" ++ newline :: lit "segment1.ts" ++ newline :: lit "/seg/1.ts".

Definition example_env : Env :=
  env_of [(embed_url_of (lit "abc"), example_page); (example_url, example_manifest)].

Definition empty_world : World := {| fs := ∅; trace := [] |}.

(** The message of the [except] branch for an exception. *)
Definition error_message (e : exn) : str := lit "Error: " ++ exn_str e.

Definition status_message (what : string) (status : Z) : str :=
  lit "Failed to fetch " ++ lit what ++ lit ". HTTP Status: " ++ Str.of_int status.

(** The eight ways a job can end, step by step: [ends E ... w out w'] holds
    when the job started in world [w] ends in world [w'] with outcome
    [out]. *)
Inductive ends (E : Env) (stream_id referer country subdivision folder_name : str)
  (w : World) : Outcome -> World -> Prop :=
| end_embed_raise e w1 :
    fetch_embed_page E stream_id referer (folder_path_of country subdivision folder_name) w
      = (Raise e, w1) ->
    ends E stream_id referer country subdivision folder_name w (failure (error_message e)) w1
| end_embed_status response w1 :
    fetch_embed_page E stream_id referer (folder_path_of country subdivision folder_name) w
      = (Ok response, w1) ->
    status_code response <> 200%Z ->
    ends E stream_id referer country subdivision folder_name w
         (failure (status_message "embed page" (status_code response))) w1
| end_not_found response w1 :
    fetch_embed_page E stream_id referer (folder_path_of country subdivision folder_name) w
      = (Ok response, w1) ->
    status_code response = 200%Z ->
    locate (text response) = None ->
    ends E stream_id referer country subdivision folder_name w
         (failure (lit "M3U8 URL not found in embed page")) w1
| end_m3u8_raise response w1 url e w2 :
    fetch_embed_page E stream_id referer (folder_path_of country subdivision folder_name) w
      = (Ok response, w1) ->
    status_code response = 200%Z ->
    locate (text response) = Some url ->
    fetch_m3u8 E stream_id url w1 = (Raise e, w2) ->
    ends E stream_id referer country subdivision folder_name w (failure (error_message e)) w2
| end_m3u8_status response w1 url m3u8_response w2 :
    fetch_embed_page E stream_id referer (folder_path_of country subdivision folder_name) w
      = (Ok response, w1) ->
    status_code response = 200%Z ->
    locate (text response) = Some url ->
    fetch_m3u8 E stream_id url w1 = (Ok m3u8_response, w2) ->
    status_code m3u8_response <> 200%Z ->
    ends E stream_id referer country subdivision folder_name w
         (failure (status_message "M3U8 file" (status_code m3u8_response))) w2
| end_rewrite_raise response w1 url m3u8_response w2 e :
    fetch_embed_page E stream_id referer (folder_path_of country subdivision folder_name) w
      = (Ok response, w1) ->
    status_code response = 200%Z ->
    locate (text response) = Some url ->
    fetch_m3u8 E stream_id url w1 = (Ok m3u8_response, w2) ->
    status_code m3u8_response = 200%Z ->
    rewrite (url_checks E) (text m3u8_response) url = Raise e ->
    ends E stream_id referer country subdivision folder_name w (failure (error_message e)) w2
| end_write_raise response w1 url m3u8_response w2 content e w3 :
    fetch_embed_page E stream_id referer (folder_path_of country subdivision folder_name) w
      = (Ok response, w1) ->
    status_code response = 200%Z ->
    locate (text response) = Some url ->
    fetch_m3u8 E stream_id url w1 = (Ok m3u8_response, w2) ->
    status_code m3u8_response = 200%Z ->
    rewrite (url_checks E) (text m3u8_response) url = Ok content ->
    write_output E (output_file_of country subdivision folder_name stream_id) content w2
      = (Raise e, w3) ->
    ends E stream_id referer country subdivision folder_name w (failure (error_message e)) w3
| end_success response w1 url m3u8_response w2 content w3 :
    fetch_embed_page E stream_id referer (folder_path_of country subdivision folder_name) w
      = (Ok response, w1) ->
    status_code response = 200%Z ->
    locate (text response) = Some url ->
    fetch_m3u8 E stream_id url w1 = (Ok m3u8_response, w2) ->
    status_code m3u8_response = 200%Z ->
    rewrite (url_checks E) (text m3u8_response) url = Ok content ->
    write_output E (output_file_of country subdivision folder_name stream_id) content w2
      = (Ok tt, w3) ->
    ends E stream_id referer country subdivision folder_name w
         {| success := true;
            message := lit "M3U8 file successfully downloaded and processed";
            file_path := Some (output_file_of country subdivision folder_name stream_id);
            m3u8_url := Some url |} w3.

(** The job of the examples. *)
Definition example_run (E : Env) (w : World) : Outcome * World :=
  download_stream_manifest E (lit "abc") (lit "https://example.com/")
                           (lit "TR") (lit "53") (lit "rize") w.

(** A world where every request times out. *)
Definition timeout_env : Env :=
  {| url_checks := no_checks;
     fault := fun tr => match List.last tr EvCreateScraper with
                        | EvGet _ _ => Some (Exn (lit "ReadTimeout") (lit "Read timed out."))
                        | _ => None
                        end;
     respond := fun _ => {| status_code := 200; text := [] |};
     console := fun _ => None |}.

(** A server whose manifest has a line that [urljoin] rejects. *)
Definition malformed_env : Env :=
  env_of [(embed_url_of (lit "abc"), example_page); (example_url, lit "//[")].

(** A server whose embed page is there and whose manifest is not. *)
Definition no_manifest_env : Env := env_of [(embed_url_of (lit "abc"), example_page)].






(** The events that mark the start of a job and the pauses. *)
Definition is_start_or_sleep (ev : Event) : bool :=
  match ev with EvMakedirs _ | EvSleep _ => true | _ => false end.

Definition start_of (job : Stream) : Event :=
  EvMakedirs (folder_path_of (country job) (subdivision job) (folder_name job)).

Fixpoint intersperse {A} (sep : A) (l : list A) : list A :=
  match l with
  | [] => []
  | [x] => [x]
  | x :: l' => x :: sep :: intersperse sep l'
  end.

(** Three jobs; the embed page of the second has no manifest URL. *)
Definition job_of (id : string) : Stream :=
  {| country := lit "TR"; subdivision := lit "53"; folder_name := lit "rize";
     stream_id := lit id; name := lit "camera " ++ lit id;
     referer := lit "https://example.com/" |}.

Definition batch_env : Env :=
  env_of [(embed_url_of (lit "one"), example_page);
          (embed_url_of (lit "two"), lit "<html>no player</html>");
          (embed_url_of (lit "three"), example_page);
          (example_url, example_manifest)].

Definition example_batch : list Stream := [job_of "one"; job_of "two"; job_of "three"].

(** A console that encodes the characters of Latin-1 and no other, as
    Python's [latin-1] codec does; the server is that of [batch_env]. *)
Definition latin1_console (text : str) : option exn :=
  if forallb (fun c => (c <? 256)%N) text then None
  else Some (Exn (lit "UnicodeEncodeError")
                 (lit "'latin-1' codec can't encode character: ordinal not in range(256)")).

Definition latin1_env : Env :=
  {| url_checks := no_checks; fault := fun _ => None;
     respond := respond batch_env; console := latin1_console |}.


(** Reading a decimal numeral, the way the specification means a message
    to contain a status code: an optional minus sign, then digits, the
    first of which is not zero unless it is the only one. *)
Definition digit_value (c : char) : option N :=
  if ((48 <=? c) && (c <=? 57))%N then Some (c - 48)%N else None.

Fixpoint read_digits (s : str) (acc : N) : option N :=
  match s with
  | [] => Some acc
  | c :: s' =>
      match digit_value c with
      | Some d => read_digits s' (10 * acc + d)%N
      | None => None
      end
  end.

Definition canonical_digits (s : str) : bool :=
  match s with
  | [] => false
  | [c] => true
  | c :: _ => negb (c =? 48)%N
  end.

Definition decimal (s : str) : option Z :=
  match s with
  | [] => None
  | c :: s' =>
      if (c =? 45)%N then
        if canonical_digits s' && negb (Str.eqb s' [48%N])
        then option_map (fun n => (- Z.of_N n)%Z) (read_digits s' 0)
        else None
      else if canonical_digits s then option_map Z.of_N (read_digits s 0) else None
  end.

(** A server that answers every request with status 503. *)
Definition busy_env : Env :=
  {| url_checks := no_checks; fault := fun _ => None;
     respond := fun _ => {| status_code := 503; text := lit "Service Unavailable" |};
     console := fun _ => None |}.

(** ** Further notions used in the statements *)

(** The attribute src with the value [u] between double quotes. *)
Definition src_attribute (u : str) : str := lit "src=" ++ Re.dquote :: u ++ [Re.dquote].

(** The start of an absolute URL as the last two patterns capture it: http
    in some case, then ://, with at most one character in between. *)
Definition url_start (r : str) : Prop :=
  Str.startswith (lit "http") (Str.lower r) = true
  /\ (Str.startswith (lit "://") (skipn 4 r) = true
      \/ Str.startswith (lit "://") (skipn 5 r) = true).

(** A line the rewriter resolves: not blank, not a comment, not starting
    with http:// or https://. *)
Definition relative (line : str) : bool :=
  negb (blank line) && negb (comment line) && negb (absolute line).

(** [own_scheme s]: the reference starts with a scheme of its own, as
    [urlsplit] reads it. *)
Definition own_scheme (s : str) : bool :=
  Url.nonempty
    (fst (Url.split_scheme (Url.remove_unsafe (Str.lstrip_by Url.c0_or_space s)) [])).

(** The keys of a record, in the order the batch loop reads them. *)
Definition stream_keys : list string :=
  ["country"; "subdivision"; "folder_name"; "stream_id"; "name"; "referer"]%string.

(** The first key, in that order, that a record lacks. *)
Definition first_missing (stream : record) : option string :=
  List.find (fun key => match stream !! lit key with None => true | Some _ => false end)
            stream_keys.

(** The job of a record that has the six keys. *)
Definition stream_of (stream : record) : Stream :=
  {| country := default [] (stream !! lit "country");
     subdivision := default [] (stream !! lit "subdivision");
     folder_name := default [] (stream !! lit "folder_name");
     stream_id := default [] (stream !! lit "stream_id");
     name := default [] (stream !! lit "name");
     referer := default [] (stream !! lit "referer") |}.


(** An example of a configuration: a file that holds two records, the
    second without the key of the referer. *)
Definition example_record (id : string) : record :=
  list_to_map [(lit "country", lit "TR"); (lit "subdivision", lit "53");
               (lit "folder_name", lit "rize"); (lit "stream_id", lit id);
               (lit "name", lit "camera " ++ lit id);
               (lit "referer", lit "https://example.com/")].

Definition example_config_world : World :=
  {| fs := {[ lit "streams_config.json" := Os.File (lit "[...]") ]}; trace := [] |}.

(** The name of one directory entry: a single path component ([plain])
    that is neither [.] nor [..] and holds no null character. *)
Definition proper (x : str) : bool :=
  plain x && negb (Str.eqb x (lit ".")) && negb (Str.eqb x (lit ".."))
  && negb (Str.contains 0%N x).

(** * Properties *)

(** ** Strings *)

Section StrFacts.

Lemma split_nonempty sep s : Str.split sep s <> [].
Proof.
  destruct s as [|c s]; simpl; [discriminate|].
  destruct (c =? sep)%N; [discriminate|].
  destruct (Str.split sep s); discriminate.
Qed.

Lemma join_split sep s : Str.join sep (Str.split sep s) = s.
Proof.
  induction s as [|c s IH]; simpl; [reflexivity|].
  destruct (N.eqb_spec c sep) as [->|Hne].
  - pose proof (split_nonempty sep s) as Hn.
    destruct (Str.split sep s) as [|w ws] eqn:E; [congruence|].
    simpl in *. rewrite IH. reflexivity.
  - pose proof (split_nonempty sep s) as Hn.
    destruct (Str.split sep s) as [|w ws] eqn:E; [congruence|].
    destruct ws as [|w' ws]; simpl in *; rewrite <- IH; reflexivity.
Qed.

(** No element of [split sep s] holds the separator. *)
Lemma split_no_sep sep s : Forall (fun w => ~ In sep w) (Str.split sep s).
Proof.
  induction s as [|c s IH]; simpl.
  - constructor; [intros []|constructor].
  - destruct (N.eqb_spec c sep) as [->|Hne].
    + constructor; [intros []|exact IH].
    + destruct (Str.split sep s) as [|w ws]; [repeat constructor; intros [H|[]]; congruence|].
      inversion IH; subst. constructor; [|assumption].
      intros [H|H]; [congruence|contradiction].
Qed.

Lemma split_app_no_sep sep w s :
  ~ In sep w -> Str.split sep (w ++ sep :: s) = w :: Str.split sep s.
Proof.
  induction w as [|c w IH]; simpl; intros Hn.
  - rewrite N.eqb_refl. reflexivity.
  - destruct (N.eqb_spec c sep) as [->|Hne]; [exfalso; apply Hn; left; reflexivity|].
    rewrite IH by (intros H; apply Hn; right; exact H). reflexivity.
Qed.

Lemma split_single sep w : ~ In sep w -> Str.split sep w = [w].
Proof.
  induction w as [|c w IH]; simpl; intros Hn; [reflexivity|].
  destruct (N.eqb_spec c sep) as [->|Hne]; [exfalso; apply Hn; left; reflexivity|].
  rewrite IH by (intros H; apply Hn; right; exact H). reflexivity.
Qed.

Lemma split_join sep l :
  l <> [] -> Forall (fun w => ~ In sep w) l -> Str.split sep (Str.join sep l) = l.
Proof.
  induction l as [|w l IH]; intros Hne Hall; [congruence|].
  inversion Hall as [|? ? Hw Hl]; subst.
  destruct l as [|w' l].
  - simpl. apply split_single, Hw.
  - change (Str.join sep (w :: w' :: l)) with (w ++ sep :: Str.join sep (w' :: l)).
    rewrite split_app_no_sep by exact Hw.
    rewrite IH by (done || exact Hl). reflexivity.
Qed.

(** [lstrip_by] and [rstrip_by] *)

Lemma lstrip_by_keep p c s : p c = false -> Str.lstrip_by p (c :: s) = c :: s.
Proof. intros H; simpl; rewrite H; reflexivity. Qed.

Lemma lstrip_by_head p s :
  match Str.lstrip_by p s with [] => True | c :: _ => p c = false end.
Proof.
  induction s as [|c s IH]; simpl; [exact I|].
  destruct (p c) eqn:E; [exact IH|exact E].
Qed.

Lemma lstrip_by_snoc p s c :
  p c = false -> Str.lstrip_by p (s ++ [c]) = Str.lstrip_by p s ++ [c].
Proof.
  intros Hc. induction s as [|x s IH]; simpl; [rewrite Hc; reflexivity|].
  destruct (p x); [exact IH|reflexivity].
Qed.

Lemma rstrip_by_cons p c s :
  p c = false -> Str.rstrip_by p (c :: s) = c :: Str.rstrip_by p s.
Proof.
  intros Hc. unfold Str.rstrip_by. simpl.
  rewrite lstrip_by_snoc by exact Hc. rewrite rev_app_distr. reflexivity.
Qed.

Lemma lstrip_by_sublist p s : forall c, In c (Str.lstrip_by p s) -> In c s.
Proof.
  induction s as [|x s IH]; simpl; [tauto|].
  destruct (p x); intros c H; [right; apply IH, H|exact H].
Qed.

Lemma rstrip_by_sublist p s : forall c, In c (Str.rstrip_by p s) -> In c s.
Proof.
  intros c H. unfold Str.rstrip_by in H. apply in_rev in H.
  apply lstrip_by_sublist in H. apply in_rev in H. exact H.
Qed.

Lemma strip_sublist s : forall c, In c (Str.strip s) -> In c s.
Proof.
  intros c H. apply rstrip_by_sublist in H. apply lstrip_by_sublist in H. exact H.
Qed.

Lemma rstrip_by_last p s :
  match rev (Str.rstrip_by p s) with [] => True | c :: _ => p c = false end.
Proof. unfold Str.rstrip_by. rewrite rev_involutive. apply lstrip_by_head. Qed.

Lemma rstrip_by_fix p s :
  match rev s with [] => True | c :: _ => p c = false end -> Str.rstrip_by p s = s.
Proof.
  unfold Str.rstrip_by. intros H. destruct (rev s) as [|c r] eqn:E.
  - simpl. apply (f_equal (@rev _)) in E. rewrite rev_involutive in E. subst; reflexivity.
  - rewrite lstrip_by_keep by exact H. rewrite <- E. apply rev_involutive.
Qed.

Lemma rstrip_by_idem p s : Str.rstrip_by p (Str.rstrip_by p s) = Str.rstrip_by p s.
Proof. apply rstrip_by_fix, rstrip_by_last. Qed.

(** A stripped string neither starts nor ends with white space. *)
Lemma strip_head s :
  match Str.strip s with [] => True | c :: _ => Str.isspace c = false end.
Proof.
  unfold Str.strip. pose proof (lstrip_by_head Str.isspace s) as H.
  destruct (Str.lstrip_by Str.isspace s) as [|c m]; [exact I|].
  rewrite rstrip_by_cons by exact H. exact H.
Qed.

Lemma strip_idem s : Str.strip (Str.strip s) = Str.strip s.
Proof.
  pose proof (strip_head s) as H.
  unfold Str.strip at 1.
  destruct (Str.strip s) as [|c m] eqn:E; [reflexivity|].
  rewrite lstrip_by_keep by exact H. rewrite <- E.
  unfold Str.strip. apply rstrip_by_idem.
Qed.

Lemma startswith_app p s : Str.startswith p (p ++ s) = true.
Proof. induction p as [|a p IH]; simpl; [reflexivity|]. rewrite N.eqb_refl. exact IH. Qed.

Lemma startswith_spec p s : Str.startswith p s = true <-> exists r, s = p ++ r.
Proof.
  split.
  - revert s. induction p as [|a p IH]; intros s H; [exists s; reflexivity|].
    destruct s as [|b s]; simpl in H; [discriminate|].
    apply andb_true_iff in H as [H1 H2]. apply N.eqb_eq in H1 as ->.
    destruct (IH _ H2) as [r ->]. exists r; reflexivity.
  - intros [r ->]. apply startswith_app.
Qed.

Lemma startswith_app_l p a b : Str.startswith p a = true -> Str.startswith p (a ++ b) = true.
Proof.
  intros H. apply startswith_spec in H as [r ->]. rewrite <- app_assoc. apply startswith_app.
Qed.

(** Stripping keeps a prefix that has no white space in it. *)
Lemma rstrip_by_app_keep p a b :
  a <> [] -> Forall (fun c => p c = false) a ->
  exists b', Str.rstrip_by p (a ++ b) = a ++ b'.
Proof.
  intros Hne Ha. induction Ha as [|c a Hc Ha IH]; [congruence|].
  simpl. rewrite rstrip_by_cons by exact Hc.
  destruct a as [|c' a].
  - simpl. eexists; reflexivity.
  - destruct IH as [b' Hb']; [discriminate|]. rewrite Hb'. exists b'. reflexivity.
Qed.

Lemma strip_keeps_prefix p s :
  p <> [] -> Forall (fun c => Str.isspace c = false) p ->
  Str.startswith p s = true -> Str.startswith p (Str.strip s) = true.
Proof.
  intros Hne Hp H. apply startswith_spec in H as [r ->].
  unfold Str.strip. destruct p as [|c p]; [congruence|].
  inversion Hp; subst.
  change ((c :: p) ++ r) with (c :: (p ++ r)). rewrite lstrip_by_keep by assumption.
  destruct (rstrip_by_app_keep Str.isspace (c :: p) r) as [b' Hb']; [discriminate|exact Hp|].
  change (c :: (p ++ r)) with ((c :: p) ++ r).
  rewrite Hb'. apply startswith_app.
Qed.

End StrFacts.

(** ** [urljoin] never puts a newline into its result *)

Section NoNewline.

Lemma nonl_nil : nonl [].
Proof. intros []. Qed.

Lemma nonl_cons c s : c <> newline -> nonl s -> nonl (c :: s).
Proof. intros Hc Hs [H|H]; [congruence|exact (Hs H)]. Qed.

Lemma nonl_cons_inv c s : nonl (c :: s) -> c <> newline /\ nonl s.
Proof. intros H; split; [intros ->; apply H; left; reflexivity|intros H'; apply H; right; exact H']. Qed.

Lemma nonl_app a b : nonl a -> nonl b -> nonl (a ++ b).
Proof. intros Ha Hb H. apply in_app_or in H as [H|H]; [exact (Ha H)|exact (Hb H)]. Qed.

Lemma nonl_app_inv a b : nonl (a ++ b) -> nonl a /\ nonl b.
Proof. intros H; split; intros H'; apply H, in_or_app; [left|right]; exact H'. Qed.

Lemma nonl_lit_ok (s : str) : forallb (fun c => negb (c =? newline)%N) s = true -> nonl s.
Proof.
  intros H Hin. rewrite forallb_forall in H. specialize (H _ Hin).
  rewrite N.eqb_refl in H. discriminate.
Qed.

Lemma nonl_remove_unsafe s : nonl (Url.remove_unsafe s).
Proof.
  unfold nonl, Url.remove_unsafe, Str.remove. intros H.
  apply filter_In in H as [_ H]. discriminate.
Qed.

Lemma nonl_cut c s a b : Str.cut c s = Some (a, b) -> nonl s -> nonl a /\ nonl b.
Proof.
  revert a b. induction s as [|x s IH]; simpl; intros a b H Hs; [discriminate|].
  apply nonl_cons_inv in Hs as [Hx Hs].
  destruct (x =? c)%N.
  - injection H as <- <-. split; [apply nonl_nil|exact Hs].
  - destruct (Str.cut c s) as [[a' b']|]; [|discriminate].
    injection H as <- <-. destruct (IH _ _ eq_refl Hs) as [Ha Hb].
    split; [apply nonl_cons; assumption|exact Hb].
Qed.

Lemma nonl_split_at c s : nonl s -> nonl (fst (Url.split_at c s)) /\ nonl (snd (Url.split_at c s)).
Proof.
  intros Hs. unfold Url.split_at. destruct (Str.cut c s) as [[a b]|] eqn:E; simpl.
  - eapply nonl_cut; eassumption.
  - split; [exact Hs|apply nonl_nil].
Qed.

Lemma nonl_lower s : nonl s -> nonl (Str.lower s).
Proof.
  unfold nonl, Str.lower. intros Hs H. apply in_map_iff in H as (x & Hx & Hin).
  unfold Str.lower_char in Hx.
  destruct ((65 <=? x)%N && (x <=? 90)%N) eqn:E.
  - unfold newline in Hx. lia.
  - subst x. exact (Hs Hin).
Qed.

Lemma nonl_split_scheme url scheme :
  nonl url -> nonl scheme ->
  nonl (fst (Url.split_scheme url scheme)) /\ nonl (snd (Url.split_scheme url scheme)).
Proof.
  intros Hu Hs. unfold Url.split_scheme.
  destruct (Str.cut (ch ":") url) as [[[|c pre] post]|] eqn:E; simpl; try (split; assumption).
  destruct (nonl_cut _ _ _ _ E Hu) as [Ha Hb].
  destruct (Url.is_ascii_alpha c && _); simpl; [|split; assumption].
  split; [apply (nonl_lower (c :: pre)), Ha|exact Hb].
Qed.

Lemma nonl_splitnetloc s :
  nonl s -> nonl (fst (Url.splitnetloc s)) /\ nonl (snd (Url.splitnetloc s)).
Proof.
  induction s as [|c s IH]; simpl; intros Hs; [split; apply nonl_nil|].
  destruct (Url.is_delim c); simpl; [split; [apply nonl_nil|exact Hs]|].
  apply nonl_cons_inv in Hs as [Hc Hs]. destruct (IH Hs) as [Ha Hb].
  destruct (Url.splitnetloc s) as [a b]; simpl in *.
  split; [apply nonl_cons; assumption|exact Hb].
Qed.

Lemma nonl_split_netloc K url netloc rest :
  Url.split_netloc K url = Ok (netloc, rest) -> nonl url -> nonl netloc /\ nonl rest.
Proof.
  unfold Url.split_netloc. intros H Hu.
  destruct (Str.startswith (lit "//") url).
  2:{ injection H as <- <-. split; [apply nonl_nil|exact Hu]. }
  assert (Hr : nonl (skipn 2 url)).
  { intros Hin. apply Hu. rewrite <- (firstn_skipn 2 url). apply in_or_app. right; exact Hin. }
  destruct (nonl_splitnetloc _ Hr) as [Ha Hb].
  destruct (Url.splitnetloc (skipn 2 url)) as [a b]; simpl in *.
  destruct (_ || _); [discriminate|].
  destruct (_ && _).
  - destruct (check_bracketed_netloc K a); [discriminate|]. injection H as <- <-. tauto.
  - injection H as <- <-. tauto.
Qed.

Lemma nonl_lstrip_by p s : nonl s -> nonl (Str.lstrip_by p s).
Proof. intros Hs H. apply Hs. eapply lstrip_by_sublist, H. Qed.

Lemma nonl_urlsplit K url scheme r :
  Url.urlsplit K url scheme = Ok r ->
  nonl (Url.s_scheme r) /\ nonl (Url.s_netloc r) /\ nonl (Url.s_path r)
  /\ nonl (Url.s_query r) /\ nonl (Url.s_fragment r).
Proof.
  unfold Url.urlsplit. intros H.
  pose proof (nonl_split_scheme _ _ (nonl_remove_unsafe (Str.lstrip_by Url.c0_or_space url))
    (nonl_remove_unsafe (Str.rstrip_by Url.c0_or_space (Str.lstrip_by Url.c0_or_space scheme))))
    as [Hsch Hurl].
  destruct (Url.split_scheme _ _) as [sch u]; simpl in *.
  destruct (Url.split_netloc K u) as [[netloc u1]|] eqn:En; simpl in H; [|discriminate].
  destruct (nonl_split_netloc _ _ _ _ En Hurl) as [Hn Hu1].
  pose proof (nonl_split_at (ch "#") u1 Hu1) as [Hu2 Hf].
  destruct (Url.split_at (ch "#") u1) as [u2 f]; simpl in *.
  pose proof (nonl_split_at (ch "?") u2 Hu2) as [Hu3 Hq].
  destruct (Url.split_at (ch "?") u2) as [u3 q]; simpl in *.
  destruct (Url.checknetloc K netloc); [discriminate|].
  injection H as <-. simpl. tauto.
Qed.

Lemma nonl_rev s : nonl s -> nonl (rev s).
Proof. intros Hs H. apply Hs. apply in_rev. exact H. Qed.

Lemma nonl_splitparams url :
  nonl url -> nonl (fst (Url.splitparams url)) /\ nonl (snd (Url.splitparams url)).
Proof.
  intros Hu. unfold Url.splitparams, Url.rcut_slash.
  destruct (Str.cut (ch "/") (rev url)) as [[a b]|] eqn:E.
  - destruct (nonl_cut _ _ _ _ E (nonl_rev _ Hu)) as [Ha Hb].
    destruct (Str.cut (ch ";") (rev a)) as [[a' b']|] eqn:E'; simpl.
    + destruct (nonl_cut _ _ _ _ E' (nonl_rev _ Ha)) as [Ha' Hb'].
      split; [|exact Hb'].
      repeat apply nonl_app; try assumption; [apply nonl_rev, Hb|].
      apply nonl_lit_ok. reflexivity.
    + split; [exact Hu|apply nonl_nil].
  - destruct (Str.cut (ch ";") url) as [[a' b']|] eqn:E'; simpl.
    + eapply nonl_cut; eassumption.
    + split; [exact Hu|apply nonl_nil].
Qed.

Lemma nonl_urlparse K url scheme p : Url.urlparse K url scheme = Ok p -> nonl_parse p.
Proof.
  unfold Url.urlparse. intros H.
  destruct (Url.urlsplit K url scheme) as [r|] eqn:E; simpl in H; [|discriminate].
  apply nonl_urlsplit in E as (H1 & H2 & H3 & H4 & H5).
  pose proof (nonl_splitparams _ H3) as [Ha Hb].
  destruct (_ && _).
  - destruct (Url.splitparams (Url.s_path r)) as [a b]; simpl in *.
    injection H as <-. repeat split; assumption.
  - injection H as <-. repeat split; try assumption. apply nonl_nil.
Qed.

Lemma nonl_urlunsplit scheme netloc url query fragment :
  nonl scheme -> nonl netloc -> nonl url -> nonl query -> nonl fragment ->
  nonl (Url.urlunsplit scheme netloc url query fragment).
Proof.
  intros H1 H2 H3 H4 H5. unfold Url.urlunsplit.
  assert (Hc : forall c s, c <> newline -> nonl s -> nonl (c :: s)) by apply nonl_cons.
  assert (Hl : nonl (lit "//")) by (apply nonl_lit_ok; reflexivity).
  repeat match goal with
         | |- nonl (if ?b then _ else _) => destruct b
         | |- nonl (_ ++ _) => apply nonl_app
         | |- nonl (_ :: _) => apply nonl_cons; [discriminate|]
         | |- _ => assumption
         end.
Qed.

Lemma nonl_urlunparse p : nonl_parse p -> nonl (Url.urlunparse p).
Proof.
  intros (H1 & H2 & H3 & H4 & H5 & H6). unfold Url.urlunparse.
  apply nonl_urlunsplit; try assumption.
  destruct (Url.nonempty (Url.params p)); [|assumption].
  apply nonl_app; [assumption|]. apply nonl_cons; [discriminate|assumption].
Qed.

Lemma Forall_nonl_split c s : nonl s -> Forall nonl (Str.split c s).
Proof.
  induction s as [|x s IH]; simpl; intros Hs; [repeat constructor; apply nonl_nil|].
  apply nonl_cons_inv in Hs as [Hx Hs]. specialize (IH Hs).
  destruct (x =? c)%N; [constructor; [apply nonl_nil|exact IH]|].
  destruct (Str.split c s) as [|w ws].
  - repeat constructor. apply nonl_cons; [exact Hx|apply nonl_nil].
  - inversion IH; subst. constructor; [apply nonl_cons; assumption|assumption].
Qed.

Lemma Forall_removelast {A} (P : A -> Prop) l : Forall P l -> Forall P (removelast l).
Proof.
  induction 1 as [|x l Hx Hl IH]; simpl; [constructor|].
  destruct l; [constructor|]. constructor; assumption.
Qed.

Lemma Forall_List_filter {A} (P : A -> Prop) f l : Forall P l -> Forall P (List.filter f l).
Proof.
  induction 1 as [|x l Hx Hl IH]; simpl; [constructor|].
  destruct (f x); [constructor; assumption|assumption].
Qed.

Lemma Forall_filter_middle l : Forall nonl l -> Forall nonl (Url.filter_middle l).
Proof.
  intros H. unfold Url.filter_middle. destruct l as [|x rest]; [constructor|].
  inversion H as [|? ? Hx Hrest]; subst.
  apply Forall_rev in Hrest.
  destruct (rev rest) as [|z mid]; [repeat constructor; assumption|].
  inversion Hrest; subst.
  constructor; [assumption|]. apply Forall_app. split.
  - apply Forall_List_filter. apply Forall_rev. assumption.
  - repeat constructor; assumption.
Qed.

Lemma Forall_resolve segs acc :
  Forall nonl segs -> Forall nonl acc -> Forall nonl (Url.resolve segs acc).
Proof.
  intros Hs. revert acc. induction Hs as [|seg segs Hseg Hsegs IH]; simpl; intros acc Ha; [exact Ha|].
  destruct (Str.eqb seg (lit "..")); [apply IH, Forall_removelast, Ha|].
  destruct (Str.eqb seg (lit ".")); [apply IH, Ha|].
  apply IH. apply Forall_app. split; [exact Ha|repeat constructor; exact Hseg].
Qed.

Lemma nonl_join c l : c <> newline -> Forall nonl l -> nonl (Str.join c l).
Proof.
  intros Hc. induction 1 as [|x l Hx Hl IH]; [apply nonl_nil|].
  destruct l as [|y l]; [exact Hx|].
  change (Str.join c (x :: y :: l)) with (x ++ c :: Str.join c (y :: l)).
  apply nonl_app; [exact Hx|]. apply nonl_cons; [exact Hc|exact IH].
Qed.

(** The result of [urljoin] has no newline when the reference is not
    empty and has none. *)
Lemma nonl_urljoin K base url r :
  Url.urljoin K base url = Ok r -> url <> [] -> nonl url -> nonl r.
Proof.
  unfold Url.urljoin. intros H Hne Hu.
  destruct base as [|b0 base]; [injection H as <-; exact Hu|].
  destruct url as [|u0 url]; [congruence|].
  destruct (Url.urlparse K (b0 :: base) []) as [pb|] eqn:Eb; cbn [rbind] in H; [|discriminate].
  destruct (Url.urlparse K (u0 :: url) (Url.scheme pb)) as [pr|] eqn:Er; cbn [rbind] in H; [|discriminate].
  apply nonl_urlparse in Eb as (B1 & B2 & B3 & B4 & B5 & B6).
  pose proof (nonl_urlparse _ _ _ _ Er) as Hpr.
  destruct Hpr as (R1 & R2 & R3 & R4 & R5 & R6).
  destruct (_ || _); [injection H as <-; exact Hu|].
  destruct (Url.mem (Url.scheme pr) Url.uses_netloc && Url.nonempty (Url.netloc pr)).
  { injection H as <-. apply nonl_urlunparse. repeat split; assumption. }
  destruct (negb (Url.nonempty (Url.path pr)) && negb (Url.nonempty (Url.params pr))).
  { injection H as <-. apply nonl_urlunparse. unfold nonl_parse; cbn [Url.scheme Url.netloc Url.path Url.params Url.query Url.fragment]; repeat (split; [try assumption|]); try assumption.
    - destruct (Url.mem _ _); assumption.
    - destruct (Url.nonempty _); assumption. }
  injection H as <-. apply nonl_urlunparse. unfold nonl_parse; cbn [Url.scheme Url.netloc Url.path Url.params Url.query Url.fragment]; repeat (split; [try assumption|]); try assumption.
  - destruct (Url.mem _ _); assumption.
  - match goal with |- nonl (if Url.nonempty ?j then _ else _) =>
      assert (Hj : nonl j); [|destruct (Url.nonempty j); [exact Hj|apply nonl_lit_ok; reflexivity]]
    end.
    apply nonl_join; [discriminate|].
    match goal with |- Forall nonl (if ?b then ?x ++ _ else ?x) =>
      assert (Hx : Forall nonl x);
      [|destruct b; [apply Forall_app; split; [exact Hx|repeat constructor; apply nonl_nil]|exact Hx]]
    end.
    apply Forall_resolve; [|constructor].
    match goal with |- Forall nonl (if ?b then _ else _) => destruct b end;
      [apply Forall_nonl_split, R3|].
    apply Forall_filter_middle, Forall_app. split; [|apply Forall_nonl_split, R3].
    destruct (Url.nonempty _); [apply Forall_removelast|]; apply Forall_nonl_split, B3.
Qed.

End NoNewline.

(** ** The rewriter, line by line *)

Section RewriterFacts.

Context (K : UrlChecks) (base : str).

Lemma process_line_blank_comment line :
  blank line = true \/ comment line = true ->
  process_line K base line = Ok (Str.strip line).
Proof.
  unfold blank, comment, process_line. intros [H|H].
  - apply negb_true_iff in H. rewrite H. reflexivity.
  - rewrite H. rewrite andb_false_r. reflexivity.
Qed.

Lemma process_line_absolute line :
  absolute line = true -> process_line K base line = Ok (Str.strip line).
Proof.
  unfold absolute, process_line. intros H.
  destruct (_ && _); [|reflexivity].
  apply orb_true_iff in H as [H|H]; rewrite H; simpl; [|rewrite andb_false_r]; reflexivity.
Qed.

Lemma process_line_relative line :
  blank line = false -> comment line = false -> absolute line = false ->
  process_line K base line = Url.urljoin K base (Str.strip line).
Proof.
  unfold blank, comment, absolute, process_line. intros H1 H2 H3.
  apply negb_false_iff in H1. rewrite H1, H2.
  apply orb_false_iff in H3 as [-> ->]. reflexivity.
Qed.

(** Every processed line is free of newlines. *)
Lemma process_line_nonl line o : process_line K base line = Ok o -> nonl line -> nonl o.
Proof.
  intros H Hl.
  assert (Hs : nonl (Str.strip line)) by (intros Hin; apply Hl, strip_sublist, Hin).
  destruct (blank line) eqn:Eb.
  { rewrite process_line_blank_comment in H by (left; exact Eb). injection H as <-. exact Hs. }
  destruct (comment line) eqn:Ec.
  { rewrite process_line_blank_comment in H by (right; exact Ec). injection H as <-. exact Hs. }
  destruct (absolute line) eqn:Ea.
  { rewrite process_line_absolute in H by exact Ea. injection H as <-. exact Hs. }
  rewrite process_line_relative in H by assumption.
  eapply nonl_urljoin; [exact H| |exact Hs].
  unfold blank in Eb. apply negb_false_iff in Eb. intros E. rewrite E in Eb. discriminate.
Qed.

(** The loop returns the lines processed one by one, in order, after the
    accumulator; it raises as soon as a line does. *)
Lemma process_lines_ok ls : forall acc out,
  process_lines K base ls acc = Ok out <->
  exists outs, out = acc ++ outs /\ Forall2 (fun l o => process_line K base l = Ok o) ls outs.
Proof.
  induction ls as [|l ls IH]; intros acc out; simpl.
  - split.
    + intros H. injection H as <-. exists []. rewrite app_nil_r. split; [reflexivity|constructor].
    + intros (outs & -> & H). inversion H; subst. rewrite app_nil_r. reflexivity.
  - destruct (process_line K base l) as [o|e] eqn:E; simpl.
    + rewrite IH. split.
      * intros (outs & -> & H). exists (o :: outs). rewrite <- app_assoc. split; [reflexivity|].
        constructor; assumption.
      * intros (outs & -> & H). inversion H as [|? o' ? outs' Ho Hrest]; subst.
        assert (o' = o) by congruence. subst o'.
        exists outs'. rewrite <- app_assoc. split; [reflexivity|assumption].
    + split; [discriminate|].
      intros (outs & -> & H). inversion H; subst. congruence.
Qed.


(** What [rewrite] returns: the processed lines, which are also the lines
    of the output. *)
Lemma rewrite_ok t out :
  rewrite K t base = Ok out <->
  exists outs, Forall2 (fun l o => process_line K base l = Ok o) (lines t) outs
               /\ out = Str.join newline outs.
Proof.
  unfold rewrite, lines. split.
  - intros H. destruct (process_lines K base (Str.split newline t) []) as [p|] eqn:E;
      simpl in H; [|discriminate].
    injection H as <-. apply process_lines_ok in E as (outs & -> & H). exists outs. auto.
  - intros (outs & H & ->).
    assert (E : process_lines K base (Str.split newline t) [] = Ok outs).
    { apply process_lines_ok. exists outs. auto. }
    rewrite E. reflexivity.
Qed.

Lemma processed_lines_of_output t outs :
  Forall2 (fun l o => process_line K base l = Ok o) (lines t) outs ->
  lines (Str.join newline outs) = outs.
Proof.
  intros H. unfold lines. apply split_join.
  - intros ->. inversion H as [E|]. symmetry in E. exact (split_nonempty _ _ E).
  - pose proof (split_no_sep newline t) as Hn. fold (lines t) in Hn.
    induction H as [|l o ls os Hlo Hrest IH]; [constructor|].
    inversion Hn; subst. constructor; [|apply IH; assumption].
    eapply process_line_nonl; eassumption.
Qed.

Lemma rewrite_lines t out :
  rewrite K t base = Ok out ->
  Forall2 (fun l o => process_line K base l = Ok o) (lines t) (lines out).
Proof.
  intros H. apply rewrite_ok in H as (outs & H & ->).
  rewrite (processed_lines_of_output _ _ H). exact H.
Qed.

Lemma rewrite_line t out i line :
  rewrite K t base = Ok out -> lines t !! i = Some line ->
  exists o, lines out !! i = Some o /\ process_line K base line = Ok o.
Proof.
  intros H Hi. apply rewrite_lines in H.
  destruct (Forall2_lookup_l _ _ _ _ _ H Hi) as (o & Ho & Hp). exists o. auto.
Qed.

End RewriterFacts.

(** ** Claims on the rewriter *)



(** C2, as the code has it.  Blank lines and comment lines come out in
    their original positions with the white space around them removed (a
    blank line comes out empty); they are never resolved against the base.
    A text made of such lines only is always rewritten. *)
Theorem rewrite_blank_comment_trimmed (K : UrlChecks) (t base out : str) :
  rewrite K t base = Ok out ->
  length (lines out) = length (lines t)
  /\ forall i line, lines t !! i = Some line ->
       blank line = true \/ comment line = true ->
       lines out !! i = Some (Str.strip line).
Proof.
  intros H. split.
  - symmetry. eapply Forall2_length, rewrite_lines, H.
  - intros i line Hi Hk.
    destruct (rewrite_line _ _ _ _ _ _ H Hi) as (o & Ho & Hp).
    rewrite process_line_blank_comment in Hp by exact Hk. congruence.
Qed.

Lemma rewrite_blank_comment_trimmed_witness :
  rewrite no_checks (lit " #EXTM3U ") example_base = Ok (lit "#EXTM3U")
  /\ lines (lit "#EXTM3U") !! 0%nat = Some (Str.strip (lit " #EXTM3U ")).
Proof.
  assert (H : rewrite no_checks (lit " #EXTM3U ") example_base = Ok (lit "#EXTM3U"))
    by (vm_compute; reflexivity).
  split; [exact H|].
  apply (rewrite_blank_comment_trimmed _ _ _ _ H) with (line := lit " #EXTM3U ").
  - vm_compute. reflexivity.
  - right. vm_compute. reflexivity.
Defined.

(** C2 as stated fails: a comment line with white space around it is not
    reproduced character for character. *)
Lemma comment_line_not_verbatim :
  ~ (forall (K : UrlChecks) (t base out : str) (i : nat) (line : str),
       rewrite K t base = Ok out -> lines t !! i = Some line ->
       blank line = true \/ comment line = true ->
       lines out !! i = Some line).
Proof.
  intros H.
  specialize (H no_checks (lit " #EXTM3U ") example_base (lit "#EXTM3U") 0%nat (lit " #EXTM3U ")).
  assert (E : lines (lit "#EXTM3U") !! 0%nat = Some (lit " #EXTM3U ")).
  { apply H; [vm_compute; reflexivity|vm_compute; reflexivity|right; vm_compute; reflexivity]. }
  vm_compute in E. discriminate.
Qed.




(** ** [urljoin] against a base that starts with http:// or https:// *)

Section AbsoluteBase.

Context (K : UrlChecks).

Lemma urlsplit_scheme url sch r :
  Url.urlsplit K url sch = Ok r ->
  Url.s_scheme r =
    fst (Url.split_scheme
           (Url.remove_unsafe (Str.lstrip_by Url.c0_or_space url))
           (Url.remove_unsafe
              (Str.rstrip_by Url.c0_or_space (Str.lstrip_by Url.c0_or_space sch)))).
Proof.
  unfold Url.urlsplit. intros H.
  destruct (Url.split_scheme _ _) as [s u]; simpl.
  destruct (Url.split_netloc K u) as [[n u1]|]; cbn [rbind] in H; [|discriminate].
  destruct (Url.split_at (ch "#") u1) as [u2 f].
  destruct (Url.split_at (ch "?") u2) as [u3 q].
  destruct (Url.checknetloc K n); [discriminate|].
  injection H as <-. reflexivity.
Qed.

Lemma urlparse_scheme url sch p :
  Url.urlparse K url sch = Ok p ->
  Url.scheme p =
    fst (Url.split_scheme
           (Url.remove_unsafe (Str.lstrip_by Url.c0_or_space url))
           (Url.remove_unsafe
              (Str.rstrip_by Url.c0_or_space (Str.lstrip_by Url.c0_or_space sch)))).
Proof.
  unfold Url.urlparse. intros H.
  destruct (Url.urlsplit K url sch) as [r|] eqn:E; cbn [rbind] in H; [|discriminate].
  apply urlsplit_scheme in E. rewrite <- E.
  destruct (_ && _); [destruct (Url.splitparams _)|]; injection H as <-; reflexivity.
Qed.

Lemma base_scheme_http base pb :
  Str.startswith (lit "http://") base = true ->
  Url.urlparse K base [] = Ok pb -> Url.scheme pb = lit "http".
Proof.
  intros Hb H. apply startswith_spec in Hb as [rest ->].
  apply urlparse_scheme in H. rewrite H. reflexivity.
Qed.

Lemma base_scheme_https base pb :
  Str.startswith (lit "https://") base = true ->
  Url.urlparse K base [] = Ok pb -> Url.scheme pb = lit "https".
Proof.
  intros Hb H. apply startswith_spec in Hb as [rest ->].
  apply urlparse_scheme in H. rewrite H. reflexivity.
Qed.

Lemma startswith_snoc p a c b :
  Str.startswith p a = true -> Str.startswith p (a ++ c :: b) = true.
Proof. apply startswith_app_l. Qed.

Lemma urlunsplit_http sch netloc url query fragment :
  sch = lit "http" \/ sch = lit "https" ->
  Str.startswith (sch ++ lit "://") (Url.urlunsplit sch netloc url query fragment) = true.
Proof.
  intros Hs. unfold Url.urlunsplit.
  assert (Hm : Url.nonempty sch && Url.mem sch Url.uses_netloc = true)
    by (destruct Hs as [-> | ->]; reflexivity).
  assert (Hn : Url.nonempty sch = true) by (destruct Hs as [-> | ->]; reflexivity).
  rewrite Hm, Hn.
  assert (Hcore : Str.startswith (sch ++ lit "://")
            (sch ++ ch ":" ::
               (if Url.nonempty netloc || true && negb (Str.startswith (lit "//") url)
                then lit "//" ++ netloc ++
                     (if Url.nonempty url && negb (Str.startswith (lit "/") url)
                      then ch "/" :: url else url)
                else url)) = true).
  { destruct (Url.nonempty netloc || true && negb (Str.startswith (lit "//") url)) eqn:E.
    - apply startswith_spec. eexists.
      change (lit "://") with (ch ":" :: lit "//").
      rewrite <- !app_assoc. simpl. reflexivity.
    - apply orb_false_iff in E as [_ E]. rewrite andb_true_l in E. apply negb_false_iff in E.
      apply startswith_spec in E as [r ->]. apply startswith_spec. exists r.
      change (lit "://") with (ch ":" :: lit "//").
      rewrite <- !app_assoc. reflexivity. }
  destruct (Url.nonempty query), (Url.nonempty fragment);
    first [exact Hcore
          |apply startswith_snoc; first [exact Hcore|apply startswith_snoc; exact Hcore]].
Qed.

Lemma urlunparse_http p :
  Url.scheme p = lit "http" \/ Url.scheme p = lit "https" ->
  Str.startswith (Url.scheme p ++ lit "://") (Url.urlunparse p) = true.
Proof. intros H. unfold Url.urlunparse. apply urlunsplit_http, H. Qed.

(** Against such a base [urljoin] either returns the reference as it is
    or a URL with the scheme of the base in front. *)
Lemma urljoin_absolute_base base url r :
  Str.startswith (lit "http://") base = true \/ Str.startswith (lit "https://") base = true ->
  url <> [] ->
  Url.urljoin K base url = Ok r ->
  r = url \/ Str.startswith (lit "http://") r = true \/ Str.startswith (lit "https://") r = true.
Proof.
  intros Hb Hne H. unfold Url.urljoin in H.
  destruct base as [|b0 base]; [destruct Hb as [Hb|Hb]; discriminate|].
  destruct url as [|u0 url]; [congruence|].
  destruct (Url.urlparse K (b0 :: base) []) as [pb|] eqn:Eb; cbn [rbind] in H; [|discriminate].
  destruct (Url.urlparse K (u0 :: url) (Url.scheme pb)) as [pr|] eqn:Er;
    cbn [rbind] in H; [|discriminate].
  assert (Hsb : Url.scheme pb = lit "http" \/ Url.scheme pb = lit "https").
  { destruct Hb as [Hb|Hb]; [left; eapply base_scheme_http|right; eapply base_scheme_https];
      eassumption. }
  destruct (negb (Str.eqb (Url.scheme pr) (Url.scheme pb))
            || negb (Url.mem (Url.scheme pr) Url.uses_relative)) eqn:Et;
    [left; congruence|].
  apply orb_false_iff in Et as [Et _]. apply negb_false_iff in Et.
  unfold Str.eqb in Et. apply bool_decide_eq_true in Et.
  assert (Hsr : Url.scheme pr = lit "http" \/ Url.scheme pr = lit "https") by (rewrite Et; exact Hsb).
  right.
  assert (Hall : forall p, Url.scheme p = Url.scheme pr ->
            Str.startswith (lit "http://") (Url.urlunparse p) = true
            \/ Str.startswith (lit "https://") (Url.urlunparse p) = true).
  { intros p Hp. pose proof (urlunparse_http p) as Hu. rewrite Hp in Hu.
    specialize (Hu Hsr). destruct Hsr as [E|E]; rewrite E in Hu; [left|right]; exact Hu. }
  destruct (Url.mem (Url.scheme pr) Url.uses_netloc && Url.nonempty (Url.netloc pr));
    [injection H as <-; apply Hall; reflexivity|].
  destruct (negb (Url.nonempty (Url.path pr)) && negb (Url.nonempty (Url.params pr)));
    injection H as <-; apply Hall; reflexivity.
Qed.

End AbsoluteBase.

(** ** A second pass of the rewriter *)

Section SecondPass.

Context (K : UrlChecks) (base : str).
Hypothesis base_absolute :
  Str.startswith (lit "http://") base = true \/ Str.startswith (lit "https://") base = true.

(** The kind of a line is the kind of its trimmed content. *)
Lemma process_line_strip line :
  process_line K base (Str.strip line) = process_line K base line.
Proof. unfold process_line. rewrite strip_idem. reflexivity. Qed.

Lemma absolute_of_prefix o :
  Str.startswith (lit "http://") o = true \/ Str.startswith (lit "https://") o = true ->
  absolute o = true.
Proof.
  unfold absolute. intros [H|H]; apply orb_true_iff; [left|right];
    (apply strip_keeps_prefix; [discriminate|repeat constructor|exact H]).
Qed.

(** A processed line, processed again, is only trimmed. *)
Lemma process_line_again line o :
  process_line K base line = Ok o -> process_line K base o = Ok (Str.strip o).
Proof.
  intros H.
  destruct (blank line) eqn:Eb.
  { rewrite process_line_blank_comment in H by (left; exact Eb). injection H as <-.
    rewrite process_line_strip, strip_idem. apply process_line_blank_comment. left; exact Eb. }
  destruct (comment line) eqn:Ec.
  { rewrite process_line_blank_comment in H by (right; exact Ec). injection H as <-.
    rewrite process_line_strip, strip_idem. apply process_line_blank_comment. right; exact Ec. }
  destruct (absolute line) eqn:Ea.
  { rewrite process_line_absolute in H by exact Ea. injection H as <-.
    rewrite process_line_strip, strip_idem. apply process_line_absolute. exact Ea. }
  pose proof H as Hp.
  rewrite process_line_relative in H by assumption.
  assert (Hne : Str.strip line <> []).
  { unfold blank in Eb. apply negb_false_iff in Eb. intros E. rewrite E in Eb. discriminate. }
  destruct (urljoin_absolute_base K base _ _ base_absolute Hne H) as [->|Ho].
  - rewrite process_line_strip, strip_idem. exact Hp.
  - apply process_line_absolute, absolute_of_prefix, Ho.
Qed.

Lemma second_pass ls outs :
  Forall2 (fun l o => process_line K base l = Ok o) ls outs ->
  Forall2 (fun l o => process_line K base l = Ok o) outs (List.map Str.strip outs).
Proof.
  induction 1 as [|l o ls outs Hlo Hrest IH]; simpl; constructor; [|exact IH].
  eapply process_line_again, Hlo.
Qed.

End SecondPass.

Lemma map_strip_fixed (ls : list str) :
  Forall (fun line => Str.strip line = line) ls -> List.map Str.strip ls = ls.
Proof. induction 1 as [|l ls Hl Hls IH]; simpl; [reflexivity|]. rewrite Hl, IH. reflexivity. Qed.

(** C10, as the code has it.  For a base that starts with http:// or
    https://, a second pass returns the output of the first with every line
    trimmed; that text is a fixed point of the rewriter; and it is the
    output of the first pass itself when none of its lines has white space
    at either end. *)
Theorem rewrite_twice (K : UrlChecks) (t base t1 : str) :
  Str.startswith (lit "http://") base = true \/ Str.startswith (lit "https://") base = true ->
  rewrite K t base = Ok t1 ->
  let t2 := Str.join newline (List.map Str.strip (lines t1)) in
  rewrite K t1 base = Ok t2
  /\ rewrite K t2 base = Ok t2
  /\ (Forall (fun line => Str.strip line = line) (lines t1) -> t2 = t1).
Proof.
  intros Hb H t2.
  pose proof (rewrite_lines _ _ _ _ H) as H1.
  pose proof (second_pass K base Hb _ _ H1) as H2.
  pose proof (second_pass K base Hb _ _ H2) as H3.
  assert (E2 : rewrite K t1 base = Ok t2).
  { apply rewrite_ok. exists (List.map Str.strip (lines t1)). split; [exact H2|reflexivity]. }
  split; [exact E2|]. split.
  - apply rewrite_ok. exists (List.map Str.strip (lines t2)). split.
    + pose proof (rewrite_lines _ _ _ _ E2) as H2'.
      eapply (second_pass K base Hb), H2'.
    + assert (El : lines t2 = List.map Str.strip (lines t1))
        by (eapply processed_lines_of_output, H2).
      rewrite El. unfold t2 at 1. f_equal.
      rewrite List.map_map. apply List.map_ext. intros a. symmetry. apply strip_idem.
  - intros Hs. unfold t2.
    rewrite (map_strip_fixed _ Hs). apply join_split.
Qed.

Lemma rewrite_twice_witness :
  rewrite no_checks (lit "segment1.ts") example_base = Ok (lit "https://host/path/segment1.ts")
  /\ rewrite no_checks (lit "https://host/path/segment1.ts") example_base
     = Ok (lit "https://host/path/segment1.ts").
Proof.
  assert (H : rewrite no_checks (lit "segment1.ts") example_base
              = Ok (lit "https://host/path/segment1.ts")) by (vm_compute; reflexivity).
  split; [exact H|].
  destruct (rewrite_twice no_checks (lit "segment1.ts") example_base _
              ltac:(right; vm_compute; reflexivity) H) as (H2 & _ & _).
  exact H2.
Defined.

(** C10 as stated fails: the reference [a ?] resolves to a URL that ends in
    a space, because [urljoin] drops the empty query with its question
    mark; the second pass trims that space. *)
Lemma rewrite_not_idempotent :
  rewrite no_checks (lit "a ?") example_base = Ok (lit "https://host/path/a ")
  /\ rewrite no_checks (lit "https://host/path/a ") example_base = Ok (lit "https://host/path/a")
  /\ ~ (forall (K : UrlChecks) (t base t1 : str),
          Str.startswith (lit "http://") base = true
          \/ Str.startswith (lit "https://") base = true ->
          rewrite K t base = Ok t1 -> rewrite K t1 base = Ok t1).
Proof.
  split; [vm_compute; reflexivity|]. split; [vm_compute; reflexivity|].
  intros H.
  specialize (H no_checks (lit "a ?") example_base (lit "https://host/path/a ")
                ltac:(right; vm_compute; reflexivity) ltac:(vm_compute; reflexivity)).
  vm_compute in H. discriminate.
Qed.

(** ** The matcher, atom by atom *)

Section Matcher.

Lemma mt_chr k p s g r :
  Re.mt (Re.Chr k :: p) s g = Some r ->
  exists c s', s = c :: s' /\ Re.test k c = true /\ Re.mt p s' (Re.push g c) = Some r.
Proof.
  simpl. destruct s as [|c s']; [discriminate|].
  destruct (Re.test k c) eqn:E; [|discriminate]. intros H. exists c, s'. auto.
Qed.

Lemma mt_opt k p s g r :
  Re.mt (Re.Opt k :: p) s g = Some r ->
  (exists c s', s = c :: s' /\ Re.test k c = true /\ Re.mt p s' (Re.push g c) = Some r)
  \/ Re.mt p s g = Some r.
Proof.
  simpl. destruct s as [|c s']; [auto|].
  destruct (Re.test k c) eqn:E; [|auto].
  destruct (Re.mt p s' (Re.push g c)) eqn:E'; [|auto].
  intros H. left. exists c, s'. rewrite E'. auto.
Qed.

Lemma mt_star k p s : forall g r,
  Re.mt (Re.Star k :: p) s g = Some r ->
  exists w s', s = w ++ s' /\ Forall (fun c => Re.test k c = true) w
               /\ Re.mt p s' (pushes g w) = Some r.
Proof.
  induction s as [|c s IH]; intros g r H.
  - exists [], []. simpl in *. auto.
  - simpl in H. destruct (Re.test k c) eqn:E.
    + match type of H with
      | match ?x with _ => _ end = _ => destruct x as [r'|] eqn:E'
      end.
      * injection H as ->. destruct (IH _ _ E') as (w & s' & -> & Hw & Hm).
        exists (c :: w), s'. simpl. auto.
      * exists [], (c :: s). simpl. auto.
    + exists [], (c :: s). simpl. auto.
Qed.

Lemma mt_nil s g r : Re.mt [] s g = Some r -> r = rev (snd g).
Proof. simpl. congruence. Qed.

Lemma pushes_open acc w : pushes (true, acc) w = (true, rev w ++ acc).
Proof.
  revert acc. induction w as [|c w IH]; intros acc; simpl; [reflexivity|].
  unfold pushes in *. cbn. rewrite IH. rewrite <- app_assoc. reflexivity.
Qed.

(** A literal of the extension matches its lower or upper case only. *)
Lemma literal_lower p c :
  Re.test (Re.Literal p) c = true ->
  p <> 105%N -> p <> 107%N -> p <> 115%N -> Str.lower_char p = p ->
  Str.lower_char c = p.
Proof.
  unfold Re.test, Re.literal_ignorecase, Str.lower_char. intros H H1 H2 H3 Hp.
  repeat (apply orb_true_iff in H as [H|H]).
  - apply N.eqb_eq in H. subst. exact Hp.
  - apply andb_true_iff in H as [H Hc]. apply andb_true_iff in H as [Ha Hb].
    apply N.leb_le in Ha, Hb. apply N.eqb_eq in Hc.
    destruct ((65 <=? c)%N && (c <=? 90)%N) eqn:E; [exact Hc|].
    apply andb_false_iff in E as [E|E]; apply N.leb_gt in E; lia.
  - apply andb_true_iff in H as [H _]. apply N.eqb_eq in H. congruence.
  - apply andb_true_iff in H as [H _]. apply N.eqb_eq in H. congruence.
  - apply andb_true_iff in H as [H _]. apply N.eqb_eq in H. congruence.
Qed.

Lemma infix_unfold pat s :
  Str.infix pat s
  = Str.startswith pat s || match s with [] => false | _ :: s' => Str.infix pat s' end.
Proof. destruct s; reflexivity. Qed.

Lemma infix_app pat a b : Str.infix pat (a ++ pat ++ b) = true.
Proof.
  induction a as [|c a IH]; simpl.
  - rewrite infix_unfold, startswith_app. reflexivity.
  - rewrite IH. apply orb_true_r.
Qed.

Lemma infix_cons pat c s : Str.infix pat s = true -> Str.infix pat (c :: s) = true.
Proof. intros H. simpl. rewrite H. apply orb_true_r. Qed.

Lemma infix_spec pat s :
  Str.infix pat s = true <-> exists x y, s = x ++ pat ++ y.
Proof.
  split; [|intros (x & y & ->); apply infix_app].
  induction s as [|c s IH]; rewrite infix_unfold; intros H;
    apply orb_true_iff in H as [H|H]; try discriminate.
  - apply startswith_spec in H as [y ->]. exists [], y. reflexivity.
  - apply startswith_spec in H as [y ->]. exists [], y. reflexivity.
  - destruct (IH H) as (x & y & ->). exists (c :: x), y. reflexivity.
Qed.

Lemma has_m3u8_app a r b : has_m3u8 r = true -> has_m3u8 (a ++ r ++ b) = true.
Proof.
  unfold has_m3u8, Str.lower. rewrite !map_app. intros H.
  apply infix_spec in H as (x & y & ->). apply infix_spec.
  exists (List.map Str.lower_char a ++ x), (y ++ List.map Str.lower_char b).
  rewrite <- !app_assoc. reflexivity.
Qed.

(** The body common to the four patterns captures a text that holds the
    extension. *)
Lemma has_m3u8_body w1 c1 c2 c3 c4 c5 w2 :
  Re.test (Re.Literal (ch ".")) c1 = true -> Re.test (Re.Literal (ch "m")) c2 = true ->
  Re.test (Re.Literal (ch "3")) c3 = true -> Re.test (Re.Literal (ch "u")) c4 = true ->
  Re.test (Re.Literal (ch "8")) c5 = true ->
  has_m3u8 (w1 ++ [c1; c2; c3; c4; c5] ++ w2) = true.
Proof.
  intros H1 H2 H3 H4 H5. apply has_m3u8_app.
  apply literal_lower in H1, H2, H3, H4, H5; try discriminate; try reflexivity.
  unfold has_m3u8. simpl. rewrite H1, H2, H3, H4, H5. reflexivity.
Qed.

Ltac mt_step H :=
  lazymatch type of H with
  | Re.mt (Re.Chr _ :: _) _ _ = Some _ =>
      let c := fresh "c" in let s := fresh "s" in let Ht := fresh "Ht" in
      apply mt_chr in H as (c & s & -> & Ht & H); cbn [Re.push fst snd] in H
  | Re.mt (Re.Star _ :: _) _ _ = Some _ =>
      let w := fresh "w" in let s := fresh "s" in let Hw := fresh "Hw" in
      apply mt_star in H as (w & s & -> & Hw & H); rewrite ?pushes_open in H
  | Re.mt (Re.GroupOpen :: ?p) ?s ?g = Some ?r =>
      change (Re.mt p s (true, []) = Some r) in H
  | Re.mt (Re.GroupClose :: ?p) ?s ?g = Some ?r =>
      change (Re.mt p s (false, snd g) = Some r) in H; cbn [snd] in H
  | Re.mt [] _ _ = Some _ =>
      apply mt_nil in H; cbn [snd] in H;
      repeat (progress (rewrite ?rev_app_distr, ?rev_involutive, ?app_nil_r in H;
                        cbn [rev app] in H; rewrite <- ?app_assoc in H; cbn [app] in H))
  end.

Lemma has_m3u8_lits c1 c2 c3 c4 c5 :
  Re.test (Re.Literal 46) c1 = true -> Re.test (Re.Literal 109) c2 = true ->
  Re.test (Re.Literal 51) c3 = true -> Re.test (Re.Literal 117) c4 = true ->
  Re.test (Re.Literal 56) c5 = true ->
  has_m3u8 [c1; c2; c3; c4; c5] = true.
Proof.
  intros. rewrite <- (app_nil_r [c1; c2; c3; c4; c5]).
  apply (has_m3u8_body [] c1 c2 c3 c4 c5 []); assumption.
Qed.

Ltac mt_start H p :=
  intros ? ? H;
  let q := eval vm_compute in p in change p with q in H;
  repeat mt_step H; rewrite ?rev_involutive in H; subst.

Lemma capture_src_dquote : capture_ok pattern_src_dquote.
Proof.
  mt_start H pattern_src_dquote. split.
  - apply (has_m3u8_app w [c4; c5; c6; c7; c8] w0), has_m3u8_lits; assumption.
  - exists [c; c0; c1; c2; c3], (c9 :: s0). cbn [app]. rewrite <- !app_assoc. reflexivity.
Qed.

Lemma capture_src_squote : capture_ok pattern_src_squote.
Proof.
  mt_start H pattern_src_squote. split.
  - apply (has_m3u8_app w [c4; c5; c6; c7; c8] w0), has_m3u8_lits; assumption.
  - exists [c; c0; c1; c2; c3], (c9 :: s0). cbn [app]. rewrite <- !app_assoc. reflexivity.
Qed.

Lemma capture_url_dquote : capture_ok pattern_url_dquote.
Proof.
  intros s r H.
  let q := eval vm_compute in pattern_url_dquote in change pattern_url_dquote with q in H.
  do 6 mt_step H.
  apply mt_opt in H as [(c4 & s4 & -> & Ht4 & H)|H]; cbn [Re.push fst snd] in H;
    repeat mt_step H; rewrite ?rev_involutive in H; subst.
  - split.
    + match goal with
      | |- has_m3u8 (?a :: ?b :: ?c :: ?d :: ?e :: ?f :: ?g :: ?h :: ?w ++ ?l1 :: ?l2 :: ?l3 :: ?l4 :: ?l5 :: ?w0) = true =>
          apply (has_m3u8_app (a :: b :: c :: d :: e :: f :: g :: h :: w) [l1; l2; l3; l4; l5] w0),
                has_m3u8_lits; assumption
      end.
    + match goal with
      | |- exists a b, ?c :: _ = _ =>
          match goal with
          | |- context [_ ++ ?q :: ?s0] =>
              exists [c], (q :: s0); cbn [app]; rewrite <- ?app_assoc; reflexivity
          end
      end.
  - split.
    + match goal with
      | |- has_m3u8 (?a :: ?b :: ?c :: ?d :: ?e :: ?f :: ?g :: ?w ++ ?l1 :: ?l2 :: ?l3 :: ?l4 :: ?l5 :: ?w0) = true =>
          apply (has_m3u8_app (a :: b :: c :: d :: e :: f :: g :: w) [l1; l2; l3; l4; l5] w0),
                has_m3u8_lits; assumption
      end.
    + match goal with
      | |- exists a b, ?c :: _ = _ =>
          match goal with
          | |- context [_ ++ ?q :: ?s0] =>
              exists [c], (q :: s0); cbn [app]; rewrite <- ?app_assoc; reflexivity
          end
      end.
Qed.

Lemma capture_url_bare : capture_ok pattern_url_bare.
Proof.
  intros s r H.
  let q := eval vm_compute in pattern_url_bare in change pattern_url_bare with q in H.
  do 5 mt_step H.
  apply mt_opt in H as [(c4 & s4 & -> & Ht4 & H)|H]; cbn [Re.push fst snd] in H;
    repeat mt_step H; rewrite ?rev_involutive in H; subst.
  - split.
    + match goal with
      | |- has_m3u8 (?a :: ?b :: ?c :: ?d :: ?e :: ?f :: ?g :: ?h :: ?w ++ ?l1 :: ?l2 :: ?l3 :: ?l4 :: ?l5 :: ?w0) = true =>
          apply (has_m3u8_app (a :: b :: c :: d :: e :: f :: g :: h :: w) [l1; l2; l3; l4; l5] w0),
                has_m3u8_lits; assumption
      end.
    + match goal with
      | |- exists a b, _ ++ ?s0 = _ => exists [], s0
      | |- exists a b, _ :: _ = _ =>
          match goal with
          | |- context [?w0 ++ ?s0] =>
              exists [], s0; cbn [app]; rewrite <- ?app_assoc; reflexivity
          end
      end.
  - split.
    + match goal with
      | |- has_m3u8 (?a :: ?b :: ?c :: ?d :: ?e :: ?f :: ?g :: ?w ++ ?l1 :: ?l2 :: ?l3 :: ?l4 :: ?l5 :: ?w0) = true =>
          apply (has_m3u8_app (a :: b :: c :: d :: e :: f :: g :: w) [l1; l2; l3; l4; l5] w0),
                has_m3u8_lits; assumption
      end.
    + match goal with
      | |- exists a b, _ :: _ = _ =>
          match goal with
          | |- context [?w0 ++ ?s0] =>
              exists [], s0; cbn [app]; rewrite <- ?app_assoc; reflexivity
          end
      end.
Qed.

Lemma capture_ok_patterns : Forall capture_ok m3u8_patterns.
Proof.
  unfold m3u8_patterns.
  constructor; [apply capture_src_dquote|].
  constructor; [apply capture_src_squote|].
  constructor; [apply capture_url_dquote|].
  constructor; [apply capture_url_bare|constructor].
Qed.

(** A search hit is a piece of the text that holds the extension. *)
Lemma search_capture p text r :
  capture_ok p -> Re.search p text = Some r ->
  has_m3u8 r = true /\ exists a b, text = a ++ r ++ b.
Proof.
  intros Hp. induction text as [|c text IH]; simpl; intros H.
  - destruct (Re.mt p [] (false, [])) eqn:E; [|discriminate].
    injection H as ->. apply Hp, E.
  - destruct (Re.mt p (c :: text) (false, [])) eqn:E.
    + injection H as ->. apply Hp, E.
    + destruct (IH H) as (Hm & a & b & ->). split; [exact Hm|].
      exists (c :: a), b. reflexivity.
Qed.


Lemma search_nonempty p text r : capture_ok p -> Re.search p text = Some r -> r <> [].
Proof.
  intros Hp H. destruct (search_capture _ _ _ Hp H) as (Hm & _). intros ->. discriminate.
Qed.

End Matcher.

(** ** Claims on the locator *)

Section Locator.

Context (html : str).


Lemma find_none (ps : list Re.pattern) :
  (forall p, In p ps -> Re.search p html = None) -> find_m3u8_url ps html = None.
Proof.
  induction ps as [|q ps IH]; intros H; simpl; [reflexivity|].
  rewrite (H q) by (left; reflexivity). apply IH. intros p Hp. apply H. right; exact Hp.
Qed.

End Locator.

Lemma search_hit p text r : Re.mt p text (false, []) = Some r -> Re.search p text = Some r.
Proof. intros H. destruct text; simpl; rewrite H; reflexivity. Qed.

Lemma search_skip p c text :
  Re.mt p (c :: text) (false, []) = None -> Re.search p (c :: text) = Re.search p text.
Proof. intros H. simpl. rewrite H. reflexivity. Qed.

Lemma literal_exact p c :
  Re.test (Re.Literal p) c = true -> (p < 97)%N -> c = p.
Proof.
  unfold Re.test, Re.literal_ignorecase. intros H Hp.
  repeat (apply orb_true_iff in H as [H|H]).
  - apply N.eqb_eq in H. exact H.
  - apply andb_true_iff in H as [H _]. apply andb_true_iff in H as [H _].
    apply N.leb_le in H. lia.
  - apply andb_true_iff in H as [H _]. apply N.eqb_eq in H. lia.
  - apply andb_true_iff in H as [H _]. apply N.eqb_eq in H. lia.
  - apply andb_true_iff in H as [H _]. apply N.eqb_eq in H. lia.
Qed.

(** A match of the first pattern has a double quote as its fifth character. *)
Lemma src_dquote_fifth text g r :
  Re.mt pattern_src_dquote text g = Some r -> nth 4 text 0%N = Re.dquote.
Proof.
  intros H.
  let q := eval vm_compute in pattern_src_dquote in change pattern_src_dquote with q in H.
  do 5 (apply mt_chr in H as (? & ? & -> & ? & H)).
  simpl. eapply literal_exact; [eassumption|reflexivity].
Qed.




(** ** The file system operations *)

Section FileSystem.

Lemma same_files_refl a : same_files a a.
Proof. intros p c. reflexivity. Qed.

Lemma same_files_trans a b c : same_files a b -> same_files b c -> same_files a c.
Proof. intros H1 H2 p x. rewrite (H1 p x). apply H2. Qed.

Lemma same_files_new_dir (a : Os.FS) name :
  a !! name = None -> same_files a (<[name := Os.Dir]> a).
Proof.
  intros Hn p c. destruct (decide (name = p)) as [->|Hne].
  - rewrite lookup_insert_eq, Hn. split; discriminate.
  - rewrite lookup_insert_ne by exact Hne. reflexivity.
Qed.

(** [mkdirs] never touches a file, keeps the directories there are, and on
    success leaves every name of its list a directory. *)
Lemma mkdirs_spec names : forall fs r fs',
  Os.mkdirs names fs = (r, fs') ->
  same_files fs fs'
  /\ (forall p, fs !! p = Some Os.Dir -> fs' !! p = Some Os.Dir)
  /\ (r = None -> forall p, In p names -> fs' !! p = Some Os.Dir).
Proof.
  induction names as [|name names IH]; intros fs r fs' H; simpl in H.
  - injection H as <- <-. split; [apply same_files_refl|]. split; [auto|intros _ p []].
  - destruct (fs !! name) as [[|content]|] eqn:E.
    + destruct (IH _ _ _ H) as (Hs & Hd & Hn). split; [exact Hs|]. split; [exact Hd|].
      intros Hr p [<-|Hp]; [apply Hd, E|apply Hn; assumption].
    + injection H as <- <-. split; [apply same_files_refl|]. split; [auto|discriminate].
    + destruct (IH _ _ _ H) as (Hs & Hd & Hn). split; [|split].
      * eapply same_files_trans; [apply same_files_new_dir, E|exact Hs].
      * intros p Hp. apply Hd. rewrite lookup_insert_ne; [exact Hp|]. intros ->. congruence.
      * intros Hr p [<-|Hp]; [apply Hd, lookup_insert_eq|apply Hn; assumption].
Qed.

Lemma makedirs_spec name fs r fs' :
  Os.makedirs name fs = (r, fs') ->
  same_files fs fs'
  /\ (forall p, fs !! p = Some Os.Dir -> fs' !! p = Some Os.Dir)
  /\ (r = None -> forall p, In p (Os.prefixes [] name) -> fs' !! p = Some Os.Dir).
Proof.
  unfold Os.makedirs. destruct name as [|c name].
  - intros H. injection H as <- <-. split; [apply same_files_refl|]. split; [auto|discriminate].
  - apply mkdirs_spec.
Qed.

(** [open] for writing either fails and changes nothing, or leaves an
    empty file under a name that was not a directory. *)
Lemma open_w_spec name fs r fs' :
  Os.open_w name fs = (r, fs') ->
  match r with
  | Some _ => fs' = fs
  | None => fs' = <[name := Os.File []]> fs /\ fs !! name <> Some Os.Dir
  end.
Proof.
  unfold Os.open_w. intros H.
  destruct name as [|c name]; [injection H as <- <-; reflexivity|].
  destruct (fs !! (c :: name)) as [[|content]|] eqn:E;
    try (injection H as <- <-; reflexivity);
    destruct (Os.parent (c :: name)) as [[|d ds]|];
    try (injection H as <- <-; split; [reflexivity|discriminate]);
    destruct (fs !! (d :: ds)) as [[|?]|];
    injection H as <- <-; try reflexivity; split; try reflexivity; discriminate.
Qed.

End FileSystem.

(** ** The steps of a job *)

Section Steps.

Context (E : Env).

Lemma bind_ok {A B} (m : M A) (f : A -> M B) w a w1 :
  m w = (Ok a, w1) -> bind m f w = f a w1.
Proof. unfold bind. intros ->. reflexivity. Qed.

Lemma bind_raise {A B} (m : M A) (f : A -> M B) w e w1 :
  m w = (Raise e, w1) -> bind m f w = (Raise e, w1).
Proof. unfold bind. intros ->. reflexivity. Qed.

(** A call on the file system logs its event; it fails on a fault of the
    world or on an error of the operation. *)
Lemma fs_call_spec ev op w r w' :
  fs_call E ev op w = (r, w') ->
  trace w' = trace w ++ [ev]
  /\ match fault E (trace w ++ [ev]) with
     | Some e => r = Raise e /\ fs w' = fs w
     | None =>
         fs w' = snd (op (fs w))
         /\ r = match fst (op (fs w)) with Some e => Raise e | None => Ok tt end
     end.
Proof.
  unfold fs_call. destruct (fault E (trace w ++ [ev])) as [e|].
  - intros H. injection H as <- <-. auto.
  - destruct (op (fs w)) as [r0 fs1]. intros H. injection H as <- <-. auto.
Qed.

Lemma scraper_get_spec url headers w r w' :
  scraper_get E url headers w = (r, w') ->
  trace w' = trace w ++ [EvGet url headers] /\ fs w' = fs w
  /\ r = match fault E (trace w ++ [EvGet url headers]) with
         | Some e => Raise e
         | None => Ok (respond E (trace w ++ [EvGet url headers]))
         end.
Proof. unfold scraper_get. intros H. injection H as <- <-. auto. Qed.

(** The first step: the call of [os.makedirs] is always its first event;
    files are left as they were. *)
Lemma fetch_embed_page_spec stream_id referer folder_path w r w' :
  fetch_embed_page E stream_id referer folder_path w = (r, w') ->
  (exists evs, trace w' = trace w ++ EvMakedirs folder_path :: evs
               /\ (evs = [] \/ evs = [EvCreateScraper]
                   \/ evs = [EvCreateScraper;
                             EvGet (embed_url_of stream_id) (embed_headers referer)]))
  /\ same_files (fs w) (fs w')
  /\ (fault E (trace w ++ [EvMakedirs folder_path]) = None ->
      fs w' = snd (Os.makedirs folder_path (fs w)))
  /\ (forall response, r = Ok response ->
        trace w' = trace w ++ [EvMakedirs folder_path; EvCreateScraper;
                               EvGet (embed_url_of stream_id) (embed_headers referer)]
        /\ fault E (trace w ++ [EvMakedirs folder_path]) = None
        /\ fst (Os.makedirs folder_path (fs w)) = None).
Proof.
  unfold fetch_embed_page, bind, os_makedirs, create_scraper. intros H.
  destruct (fs_call E (EvMakedirs folder_path) _ w) as [r1 w1] eqn:E1.
  apply fs_call_spec in E1 as (T1 & F1).
  assert (S1 : same_files (fs w) (fs w1)).
  { destruct (fault E (trace w ++ [EvMakedirs folder_path]));
      [destruct F1 as [_ ->]; apply same_files_refl|].
    destruct F1 as [-> _]. destruct (Os.makedirs folder_path (fs w)) as [r0 f0] eqn:Em.
    apply makedirs_spec in Em. apply Em. }
  assert (D1 : fault E (trace w ++ [EvMakedirs folder_path]) = None ->
               fs w1 = snd (Os.makedirs folder_path (fs w))).
  { intros Hf. rewrite Hf in F1. apply F1. }
  destruct r1 as [[]|e1].
  2:{ injection H as <- <-. split; [exists []; rewrite T1; auto|]. split; [exact S1|].
      split; [exact D1|discriminate]. }
  assert (O1 : fault E (trace w ++ [EvMakedirs folder_path]) = None
               /\ fst (Os.makedirs folder_path (fs w)) = None).
  { destruct (fault E (trace w ++ [EvMakedirs folder_path]));
      [destruct F1 as [? _]; discriminate|]. split; [reflexivity|].
    destruct F1 as [_ F1]. destruct (fst (Os.makedirs folder_path (fs w))); [discriminate|reflexivity]. }
  destruct (fs_call E EvCreateScraper _ w1) as [r2 w2] eqn:E2.
  apply fs_call_spec in E2 as (T2 & F2).
  assert (S2 : fs w2 = fs w1)
    by (destruct (fault E (trace w1 ++ [EvCreateScraper])); [apply F2|apply F2]).
  destruct r2 as [[]|e2].
  2:{ injection H as <- <-. split; [exists [EvCreateScraper]; rewrite T2, T1, <- app_assoc; auto|].
      rewrite S2. split; [exact S1|]. split; [exact D1|discriminate]. }
  apply scraper_get_spec in H as (T3 & F3 & R3).
  rewrite F3, S2.
  assert (T : trace w' = trace w ++ [EvMakedirs folder_path; EvCreateScraper;
                               EvGet (embed_url_of stream_id) (embed_headers referer)]).
  { rewrite T3, T2, T1, <- !app_assoc. reflexivity. }
  split; [eexists; split; [exact T|auto]|].
  split; [exact S1|]. split; [exact D1|]. intros response _. split; [exact T|exact O1].
Qed.

(** The last step: the file is written, or the step fails.  When it
    fails without the event of [write], nothing has changed. *)
Lemma write_output_spec output_file content w r w' :
  write_output E output_file content w = (r, w') ->
  (exists evs, trace w' = trace w ++ evs
               /\ (evs = [EvOpen output_file]
                   \/ evs = [EvOpen output_file; EvWrite output_file content])
               /\ (Forall (fun ev => is_write ev = false) evs -> fs w' = fs w /\ r <> Ok tt))
  /\ (r = Ok tt ->
      fs w' = <[output_file := Os.File content]> (fs w)
      /\ fs w !! output_file <> Some Os.Dir
      /\ trace w' = trace w ++ [EvOpen output_file; EvWrite output_file content]).
Proof.
  unfold write_output, bind, open_w, write. intros H.
  destruct (fs_call E (EvOpen output_file) _ w) as [r1 w1] eqn:E1.
  apply fs_call_spec in E1 as (T1 & F1).
  destruct r1 as [[]|e1].
  2:{ injection H as <- <-. split; [|discriminate]. exists [EvOpen output_file].
      split; [exact T1|]. split; [auto|]. intros _. split; [|discriminate].
      destruct (fault E (trace w ++ [EvOpen output_file])); [apply F1|]. destruct F1 as [-> F1].
      destruct (Os.open_w output_file (fs w)) as [r0 f0] eqn:Eo. apply open_w_spec in Eo.
      simpl in *. destruct r0; [exact Eo|discriminate]. }
  assert (O1 : fs w1 = <[output_file := Os.File []]> (fs w) /\ fs w !! output_file <> Some Os.Dir).
  { destruct (fault E (trace w ++ [EvOpen output_file]));
      [destruct F1 as [? _]; discriminate|]. destruct F1 as [-> F1].
    destruct (Os.open_w output_file (fs w)) as [r0 f0] eqn:Eo. apply open_w_spec in Eo.
    simpl in *. destruct r0; [discriminate|exact Eo]. }
  apply fs_call_spec in H as (T2 & F2).
  assert (T : trace w' = trace w ++ [EvOpen output_file; EvWrite output_file content])
    by (rewrite T2, T1, <- app_assoc; reflexivity).
  split.
  - eexists. split; [exact T|]. split; [auto|].
    intros Hw. inversion Hw as [|? ? _ Hw']; subst.
    inversion Hw'; subst. discriminate.
  - intros ->. split; [|split; [apply O1|exact T]].
    destruct (fault E (trace w1 ++ [EvWrite output_file content]));
      [destruct F2 as [? _]; discriminate|].
    destruct F2 as [-> _]. unfold Os.write. simpl. destruct O1 as [-> _].
    apply insert_insert_eq.
Qed.

End Steps.

(** ** How a job ends *)

Section Ends.

Context (E : Env) (stream_id referer country subdivision folder_name : str).

Lemma status_test (z : Z) : negb (z =? 200)%Z = true <-> z <> 200%Z.
Proof. rewrite negb_true_iff, Z.eqb_neq. reflexivity. Qed.

(** The job ends in one of the eight ways, and each of them determines
    the outcome. *)
Lemma download_ends w out w' :
  download_stream_manifest E stream_id referer country subdivision folder_name w = (out, w')
  <-> ends E stream_id referer country subdivision folder_name w out w'.
Proof.
  unfold download_stream_manifest, try_except, download_body.
  fold (output_file_of country subdivision folder_name stream_id).
  unfold bind at 1.
  split.
  - intros H.
    destruct (fetch_embed_page E stream_id referer _ w) as [[response|e] w1] eqn:E1;
      [|injection H as <- <-; apply end_embed_raise; exact E1].
    destruct (negb (status_code response =? 200)%Z) eqn:S1.
    { apply status_test in S1. injection H as <- <-. eapply end_embed_status; eassumption. }
    apply negb_false_iff, Z.eqb_eq in S1.
    destruct (locate (text response)) as [url|] eqn:L.
    2:{ injection H as <- <-. eapply end_not_found; eassumption. }
    unfold bind at 1 in H.
    destruct (fetch_m3u8 E stream_id url w1) as [[m3u8_response|e] w2] eqn:E2;
      [|injection H as <- <-; eapply end_m3u8_raise; eassumption].
    destruct (negb (status_code m3u8_response =? 200)%Z) eqn:S2.
    { apply status_test in S2. injection H as <- <-. eapply end_m3u8_status; eassumption. }
    apply negb_false_iff, Z.eqb_eq in S2.
    unfold bind at 1, lift in H.
    destruct (rewrite (url_checks E) (text m3u8_response) url) as [content|e] eqn:R;
      [|injection H as <- <-; eapply end_rewrite_raise; eassumption].
    unfold bind at 1 in H.
    destruct (write_output E _ content w2) as [[[]|e] w3] eqn:W;
      [|injection H as <- <-; eapply end_write_raise; eassumption].
    injection H as <- <-. eapply end_success; eassumption.
  - assert (T : forall z : Z, z = 200%Z -> negb (z =? 200)%Z = false)
      by (intros z ->; reflexivity).
    assert (F : forall z : Z, z <> 200%Z -> negb (z =? 200)%Z = true)
      by (intros z; apply status_test).
    intros H; inversion H; subst;
      repeat match goal with
             | Hs : status_code _ = 200%Z |- _ => apply T in Hs
             | Hs : status_code _ <> 200%Z |- _ => apply F in Hs
             end;
      repeat (match goal with
              | Hx : ?x = _ |- context [?x] => rewrite Hx
              end; unfold bind, lift, ret; cbn [fst snd]);
      reflexivity.
Qed.

End Ends.

(** ** Claims on the job runner *)

Section Decimal.

Lemma read_digits_app a : forall acc b,
  read_digits (a ++ b) acc
  = match read_digits a acc with Some n => read_digits b n | None => None end.
Proof.
  induction a as [|c a IH]; intros acc b; [reflexivity|].
  cbn [app read_digits]. destruct (digit_value c); [apply IH|reflexivity].
Qed.

Lemma digit_value_digit (d : N) : (d < 10)%N -> digit_value (48 + d) = Some d.
Proof.
  intros H. unfold digit_value.
  replace ((48 <=? 48 + d)%N) with true by (symmetry; apply N.leb_le; lia).
  replace ((48 + d <=? 57)%N) with true by (symmetry; apply N.leb_le; lia).
  cbn [andb]. f_equal. lia.
Qed.

(** [digits] with an accumulator is [digits] followed by the accumulator. *)
Lemma digits_acc fuel : forall n acc,
  Str.digits fuel n acc = Str.digits fuel n [] ++ acc.
Proof.
  induction fuel as [|fuel IH]; intros n acc; [reflexivity|].
  cbn [Str.digits]. destruct (n <? 10)%N; [reflexivity|].
  rewrite IH, (IH _ [_]), <- app_assoc. reflexivity.
Qed.

(** With fuel for every digit, [digits] writes the decimal numeral of
    [n]: reading it gives [n] back, and its first digit is not zero
    unless [n] is. *)
Lemma digits_spec fuel : forall n,
  (n < 10 ^ N.of_nat fuel)%N -> (0 < fuel)%nat ->
  read_digits (Str.digits fuel n []) 0 = Some n
  /\ exists d rest, Str.digits fuel n [] = (48 + d)%N :: rest
                    /\ (d < 10)%N /\ (d = 0%N -> n = 0%N /\ rest = []).
Proof.
  induction fuel as [|fuel IH]; intros n Hn Hf; [lia|].
  cbn [Str.digits]. destruct (N.ltb_spec n 10) as [Hlt|Hge].
  - split.
    + cbn [read_digits]. rewrite N.mod_small by exact Hlt.
      rewrite digit_value_digit by exact Hlt. f_equal.
    + exists n, []. rewrite N.mod_small by exact Hlt. split; [reflexivity|].
      split; [exact Hlt|]. intros ->. auto.
  - assert (Hq : (n / 10 < 10 ^ N.of_nat fuel)%N).
    { apply N.Div0.div_lt_upper_bound.
      replace (N.of_nat (S fuel)) with (N.succ (N.of_nat fuel)) in Hn by lia.
      rewrite N.pow_succ_r' in Hn. exact Hn. }
    assert (Hpos : (0 < fuel)%nat).
    { destruct fuel; [|lia]. simpl in Hq. assert (n / 10 = 0)%N by lia.
      apply N.div_small_iff in H; lia. }
    destruct (IH (n / 10)%N Hq Hpos) as (Hr & d & rest & Hd & Hd10 & Hz).
    rewrite digits_acc. split.
    + rewrite read_digits_app, Hr. cbn [read_digits].
      rewrite digit_value_digit by (apply N.mod_lt; lia). f_equal.
      pose proof (N.div_mod n 10 ltac:(lia)). lia.
    + exists d, (rest ++ [(48 + n mod 10)%N]). rewrite Hd. split; [reflexivity|].
      split; [exact Hd10|]. intros Hd0. destruct (Hz Hd0) as [Hq0 _].
      apply N.div_small_iff in Hq0; lia.
Qed.

Lemma of_N_spec (n : N) :
  read_digits (Str.of_N n) 0 = Some n
  /\ canonical_digits (Str.of_N n) = true
  /\ exists d rest, Str.of_N n = (48 + d)%N :: rest /\ (d < 10)%N.
Proof.
  unfold Str.of_N.
  assert (Hn : (n < 10 ^ N.of_nat (S (N.to_nat (N.log2 n))))%N).
  { destruct n as [|p]; [reflexivity|].
    eapply N.lt_le_trans; [apply (proj2 (N.log2_spec (N.pos p) eq_refl))|].
    rewrite Nat2N.inj_succ, N2Nat.id.
    apply N.pow_le_mono_l. lia. }
  destruct (digits_spec _ n Hn ltac:(lia)) as (Hr & d & rest & Hd & Hd10 & Hz).
  split; [exact Hr|]. rewrite Hd. split.
  - destruct rest as [|c rest]; [reflexivity|]. cbn [canonical_digits].
    apply negb_true_iff, N.eqb_neq. intros H0. assert (H : d = 0%N) by lia.
    destruct (Hz H) as [_ ?]. discriminate.
  - exists d, rest. auto.
Qed.

(** [str(z)] is the decimal numeral of [z]. *)
Lemma of_int_decimal (z : Z) : decimal (Str.of_int z) = Some z.
Proof.
  unfold Str.of_int. destruct (of_N_spec (Z.abs_N z)) as (Hr & Hc & d & rest & Hd & Hd10).
  destruct (Z.ltb_spec z 0) as [Hneg|Hpos].
  - unfold decimal. replace ((ch "-" =? 45)%N) with true by reflexivity.
    rewrite Hc, Hr. cbn [andb option_map].
    replace (Str.eqb (Str.of_N (Z.abs_N z)) [48%N]) with false.
    + cbn [negb]. f_equal. lia.
    + symmetry. unfold Str.eqb. apply bool_decide_eq_false. intros H.
      rewrite H in Hr. cbn in Hr. injection Hr as Hr. lia.
  - unfold decimal. rewrite Hd.
    replace ((48 + d =? 45)%N) with false by (symmetry; apply N.eqb_neq; lia).
    rewrite <- Hd, Hc, Hr. cbn [option_map]. f_equal. lia.
Qed.

End Decimal.

Lemma infix_suffix pat a : Str.infix pat (a ++ pat) = true.
Proof. rewrite <- (app_nil_r pat) at 2. apply infix_app. Qed.

(** C7.  When the embed page or the manifest comes back with a status
    other than 200, the job fails with a message that ends with the status
    code, written as its decimal numeral; the world is left as the request
    left it: the request is the last event, so there is no second attempt
    and no later step. *)
Theorem non_200_fails (E : Env) (stream_id referer country subdivision folder_name : str)
  (w : World) :
  let folder_path := folder_path_of country subdivision folder_name in
  let result := download_stream_manifest E stream_id referer country subdivision folder_name w in
  (forall response w1,
     fetch_embed_page E stream_id referer folder_path w = (Ok response, w1) ->
     status_code response <> 200%Z ->
     result = (failure (status_message "embed page" (status_code response)), w1)
     /\ Str.infix (Str.of_int (status_code response)) (message (fst result)) = true
     /\ (exists numeral,
           message (fst result) = lit "Failed to fetch embed page. HTTP Status: " ++ numeral
           /\ decimal numeral = Some (status_code response))
     /\ trace w1 = trace w ++ [EvMakedirs folder_path; EvCreateScraper;
                               EvGet (embed_url_of stream_id) (embed_headers referer)])
  /\ (forall response w1 url m3u8_response w2,
        fetch_embed_page E stream_id referer folder_path w = (Ok response, w1) ->
        status_code response = 200%Z ->
        locate (text response) = Some url ->
        fetch_m3u8 E stream_id url w1 = (Ok m3u8_response, w2) ->
        status_code m3u8_response <> 200%Z ->
        result = (failure (status_message "M3U8 file" (status_code m3u8_response)), w2)
        /\ Str.infix (Str.of_int (status_code m3u8_response)) (message (fst result)) = true
        /\ (exists numeral,
              message (fst result) = lit "Failed to fetch M3U8 file. HTTP Status: " ++ numeral
              /\ decimal numeral = Some (status_code m3u8_response))
        /\ fs w2 = fs w1
        /\ trace w2 = trace w ++ [EvMakedirs folder_path; EvCreateScraper;
                                  EvGet (embed_url_of stream_id) (embed_headers referer);
                                  EvGet url [(lit "Referer", embed_url_of stream_id)]]).
Proof.
  intros folder_path result. split.
  - intros response w1 H1 Hs.
    assert (R : result = (failure (status_message "embed page" (status_code response)), w1))
      by (apply download_ends; eapply end_embed_status; eassumption).
    split; [exact R|]. rewrite R. split; [|split].
    + unfold status_message. cbn [fst message failure]. rewrite !app_assoc. apply infix_suffix.
    + exists (Str.of_int (status_code response)). split; [|apply of_int_decimal].
      cbn [fst message failure]. unfold status_message.
      rewrite !app_assoc. f_equal.
    + apply fetch_embed_page_spec in H1 as (_ & _ & _ & H1). apply (H1 response eq_refl).
  - intros response w1 url m3u8_response w2 H1 Hs1 Hl H2 Hs2.
    assert (R : result = (failure (status_message "M3U8 file" (status_code m3u8_response)), w2))
      by (apply download_ends; eapply end_m3u8_status; eassumption).
    split; [exact R|]. rewrite R. split; [|split; [|split]].
    + unfold status_message. cbn [fst message failure]. rewrite !app_assoc. apply infix_suffix.
    + exists (Str.of_int (status_code m3u8_response)). split; [|apply of_int_decimal].
      cbn [fst message failure]. unfold status_message.
      rewrite !app_assoc. f_equal.
    + apply scraper_get_spec in H2. apply H2.
    + apply fetch_embed_page_spec in H1 as (_ & _ & _ & H1).
      destruct (H1 response eq_refl) as (T1 & _).
      apply scraper_get_spec in H2 as (T2 & _). rewrite T2, T1, <- app_assoc. reflexivity.
Qed.

Lemma non_200_fails_witness :
  success (fst (example_run (env_of []) empty_world)) = false
  /\ message (fst (example_run (env_of []) empty_world))
     = lit "Failed to fetch embed page. HTTP Status: 404"
  /\ message (fst (example_run busy_env empty_world))
     = lit "Failed to fetch embed page. HTTP Status: 503"
  /\ message (fst (example_run no_manifest_env empty_world))
     = lit "Failed to fetch M3U8 file. HTTP Status: 404".
Proof.
  pose proof (non_200_fails (env_of []) (lit "abc") (lit "https://example.com/")
                (lit "TR") (lit "53") (lit "rize") empty_world) as [H1 _].
  pose proof (non_200_fails busy_env (lit "abc") (lit "https://example.com/")
                (lit "TR") (lit "53") (lit "rize") empty_world) as [H3 _].
  pose proof (non_200_fails no_manifest_env (lit "abc") (lit "https://example.com/")
                (lit "TR") (lit "53") (lit "rize") empty_world) as [_ H2].
  cbv zeta in H1, H2, H3.
  edestruct H1 as (R1 & _); [vm_compute; reflexivity|vm_compute; discriminate|].
  edestruct H3 as (R3 & _); [vm_compute; reflexivity|vm_compute; discriminate|].
  edestruct H2 as (R2 & _);
    [vm_compute; reflexivity|vm_compute; reflexivity|vm_compute; reflexivity
    |vm_compute; reflexivity|vm_compute; discriminate|].
  unfold example_run. rewrite R1, R2, R3. vm_compute. auto.
Defined.

(** C8.  An exception raised by any step of the job (creating the folder,
    setting up the scraper, either request, the rewriter, opening or
    writing the file) is caught: the job returns a failed outcome whose
    message is [Error: ] followed by the description of the exception and
    whose file path is [None].  The runner itself is a total function: it
    always returns an outcome. *)
Theorem errors_are_caught (E : Env) (stream_id referer country subdivision folder_name : str)
  (w : World) :
  let result := download_stream_manifest E stream_id referer country subdivision folder_name w in
  (forall e w1,
     download_body E stream_id referer country subdivision folder_name w = (Raise e, w1) ->
     result = ({| success := false; message := lit "Error: " ++ exn_str e;
                  file_path := None; m3u8_url := None |}, w1)
     /\ Str.infix (exn_str e) (message (fst result)) = true)
  /\ (forall e w1,
        fetch_embed_page E stream_id referer
          (folder_path_of country subdivision folder_name) w = (Raise e, w1) ->
        download_body E stream_id referer country subdivision folder_name w = (Raise e, w1))
  /\ (forall response w1 url,
        fetch_embed_page E stream_id referer
          (folder_path_of country subdivision folder_name) w = (Ok response, w1) ->
        status_code response = 200%Z -> locate (text response) = Some url ->
        (forall e w2, fetch_m3u8 E stream_id url w1 = (Raise e, w2) ->
           download_body E stream_id referer country subdivision folder_name w = (Raise e, w2))
        /\ (forall m3u8_response w2,
              fetch_m3u8 E stream_id url w1 = (Ok m3u8_response, w2) ->
              status_code m3u8_response = 200%Z ->
              (forall e, rewrite (url_checks E) (text m3u8_response) url = Raise e ->
                 download_body E stream_id referer country subdivision folder_name w
                 = (Raise e, w2))
              /\ (forall content e w3,
                    rewrite (url_checks E) (text m3u8_response) url = Ok content ->
                    write_output E (output_file_of country subdivision folder_name stream_id)
                                 content w2 = (Raise e, w3) ->
                    download_body E stream_id referer country subdivision folder_name w
                    = (Raise e, w3))))
  /\ (success (fst result) = false -> file_path (fst result) = None /\ message (fst result) <> [])
  /\ (success (fst result) = true ->
      file_path (fst result) <> None /\ m3u8_url (fst result) <> None).
Proof.
  intros result.
  assert (Hs : forall z : Z, z = 200%Z -> negb (z =? 200)%Z = false) by (intros z ->; reflexivity).
  split; [|split; [|split; [|split]]].
  - intros e w1 H. subst result. unfold download_stream_manifest, try_except. rewrite H.
    split; [reflexivity|]. cbn [fst message]. apply infix_suffix.
  - intros e w1 H. unfold download_body. apply bind_raise, H.
  - intros response w1 url H1 S1 L. apply Hs in S1. split.
    + intros e w2 H2. unfold download_body. erewrite bind_ok by exact H1.
      rewrite S1, L. apply bind_raise, H2.
    + intros m3u8_response w2 H2 S2. apply Hs in S2. split.
      * intros e R. unfold download_body. erewrite bind_ok by exact H1.
        rewrite S1, L. erewrite bind_ok by exact H2. rewrite S2.
        unfold bind at 1, lift. rewrite R. reflexivity.
      * intros content e w3 R W. unfold download_body. erewrite bind_ok by exact H1.
        rewrite S1, L. erewrite bind_ok by exact H2. rewrite S2.
        unfold bind at 1, lift. rewrite R. apply bind_raise, W.
  - intros Hf. subst result.
    destruct (download_stream_manifest E stream_id referer country subdivision folder_name w)
      as [out w'] eqn:R. apply download_ends in R. simpl in *.
    inversion R; subst; simpl in Hf; try discriminate; split; try reflexivity; discriminate.
  - intros Ht. subst result.
    destruct (download_stream_manifest E stream_id referer country subdivision folder_name w)
      as [out w'] eqn:R. apply download_ends in R. simpl in *.
    inversion R; subst; simpl in Ht; try discriminate; split; discriminate.
Qed.

Lemma errors_are_caught_witness :
  message (fst (example_run timeout_env empty_world)) = lit "Error: Read timed out."
  /\ message (fst (example_run malformed_env empty_world)) = lit "Error: Invalid IPv6 URL"
  /\ file_path (fst (example_run malformed_env empty_world)) = None.
Proof.
  pose proof (errors_are_caught timeout_env (lit "abc") (lit "https://example.com/")
                (lit "TR") (lit "53") (lit "rize") empty_world) as (H1 & _).
  pose proof (errors_are_caught malformed_env (lit "abc") (lit "https://example.com/")
                (lit "TR") (lit "53") (lit "rize") empty_world) as (H2 & _).
  cbv zeta in H1, H2.
  edestruct H1 as (R1 & _); [vm_compute; reflexivity|].
  edestruct H2 as (R2 & _); [vm_compute; reflexivity|].
  unfold example_run. rewrite R1, R2. vm_compute. auto.
Defined.

(** ** Paths made of plain components *)

Section PlainPaths.

Lemma plain_inv x :
  plain x = true -> x <> [] /\ ~ In Os.slash x.
Proof.
  unfold plain. intros H. apply andb_true_iff in H as [H1 H2]. split.
  - intros ->. discriminate.
  - apply negb_true_iff in H2. unfold Str.contains in H2. intros Hin.
    assert (existsb (N.eqb Os.slash) x = true)
      by (apply existsb_exists; exists Os.slash; split; [exact Hin|apply N.eqb_refl]).
    congruence.
Qed.

Lemma plain_not_startswith x y : plain x = true -> Str.startswith [Os.slash] (x ++ y) = false.
Proof.
  intros H. apply plain_inv in H as [Hne Hs]. destruct x as [|c x]; [congruence|].
  cbn [Str.startswith app].
  destruct (N.eqb_spec Os.slash c) as [Heq|]; [exfalso; apply Hs; left; congruence|].
  reflexivity.
Qed.

Lemma plain_not_endswith x y : plain x = true -> Str.endswith [Os.slash] (y ++ x) = false.
Proof.
  intros H. apply plain_inv in H as [Hne Hs]. unfold Str.endswith. rewrite rev_app_distr.
  destruct (rev x) as [|c r] eqn:E.
  - apply (f_equal (@rev _)) in E. rewrite rev_involutive in E. simpl in E. congruence.
  - cbn [Str.startswith app rev].
    destruct (N.eqb_spec Os.slash c) as [Heq|]; [|reflexivity].
    exfalso. apply Hs. apply in_rev. rewrite E. left; congruence.
Qed.

Lemma nonempty_app_r x y : Url.nonempty y = true -> Url.nonempty (x ++ y) = true.
Proof. destruct y; [discriminate|]. destruct x; reflexivity. Qed.

Lemma path_join_plain a b :
  Url.nonempty a = true -> Str.endswith [Os.slash] a = false ->
  Str.startswith [Os.slash] b = false ->
  forall p, Os.path_join a (b :: p) = Os.path_join (a ++ Os.slash :: b) p.
Proof. intros Ha He Hb p. cbn [Os.path_join]. rewrite Hb, Ha, He. reflexivity. Qed.

Context (country subdivision folder_name stream_id : str).
Hypothesis plain_country : plain country = true.
Hypothesis plain_subdivision : plain subdivision = true.
Hypothesis plain_folder_name : plain folder_name = true.
Hypothesis plain_stream_id : plain stream_id = true.

Lemma plain_nonempty x : plain x = true -> Url.nonempty x = true.
Proof. unfold plain. intros H. apply andb_true_iff in H. apply H. Qed.

Lemma folder_path_plain :
  folder_path_of country subdivision folder_name
  = country ++ Os.slash :: subdivision ++ Os.slash :: folder_name.
Proof.
  unfold folder_path_of.
  rewrite path_join_plain;
    [|apply plain_nonempty, plain_country
     |apply (plain_not_endswith country []), plain_country
     |rewrite <- (app_nil_r subdivision); apply plain_not_startswith, plain_subdivision].
  rewrite path_join_plain;
    [|apply nonempty_app_r; reflexivity
     |replace (country ++ Os.slash :: subdivision)
        with ((country ++ [Os.slash]) ++ subdivision)
        by (rewrite <- app_assoc; reflexivity);
      apply plain_not_endswith, plain_subdivision
     |rewrite <- (app_nil_r folder_name); apply plain_not_startswith, plain_folder_name].
  simpl. rewrite <- app_assoc. reflexivity.
Qed.

Lemma output_file_plain :
  output_file_of country subdivision folder_name stream_id
  = country ++ Os.slash :: subdivision ++ Os.slash :: folder_name
    ++ Os.slash :: stream_id ++ lit ".m3u8".
Proof.
  unfold output_file_of. rewrite folder_path_plain.
  rewrite path_join_plain;
    [|apply nonempty_app_r; reflexivity
     |replace (country ++ Os.slash :: subdivision ++ Os.slash :: folder_name)
        with ((country ++ Os.slash :: subdivision ++ [Os.slash]) ++ folder_name)
        by (rewrite <- !app_assoc; cbn [app]; rewrite <- !app_assoc; reflexivity);
      apply plain_not_endswith, plain_folder_name
     |apply plain_not_startswith, plain_stream_id].
  simpl. rewrite <- !app_assoc. simpl. rewrite <- !app_assoc. reflexivity.
Qed.

Lemma prefixes_plain x : forall pre rest,
  ~ In Os.slash x -> Os.prefixes pre (x ++ rest) = Os.prefixes (pre ++ x) rest.
Proof.
  induction x as [|c x IH]; intros pre rest Hs; cbn [Os.prefixes app];
    [rewrite app_nil_r; reflexivity|].
  destruct (N.eqb_spec c Os.slash) as [Heq|Hne]; [exfalso; apply Hs; left; exact Heq|].
  rewrite IH by (intros H; apply Hs; right; exact H).
  rewrite <- app_assoc. reflexivity.
Qed.

Lemma prefixes_slash pre rest :
  Os.prefixes pre (Os.slash :: rest)
  = (if Url.nonempty pre then [pre] else []) ++ Os.prefixes (pre ++ [Os.slash]) rest.
Proof. cbn [Os.prefixes]. rewrite N.eqb_refl. reflexivity. Qed.

Lemma prefixes_folder_path :
  Os.prefixes [] (folder_path_of country subdivision folder_name)
  = [country; country ++ Os.slash :: subdivision;
     country ++ Os.slash :: subdivision ++ Os.slash :: folder_name].
Proof.
  rewrite folder_path_plain.
  destruct (plain_inv _ plain_country) as [Hc1 Hc2].
  destruct (plain_inv _ plain_subdivision) as [_ Hs2].
  destruct (plain_inv _ plain_folder_name) as [_ Hf2].
  rewrite prefixes_plain by exact Hc2. cbn [app]. rewrite prefixes_slash.
  rewrite (plain_nonempty _ plain_country).
  rewrite prefixes_plain by exact Hs2. rewrite prefixes_slash.
  rewrite nonempty_app_r by (apply plain_nonempty, plain_subdivision).
  rewrite <- (app_nil_r folder_name) at 1. rewrite prefixes_plain by exact Hf2.
  cbn [Os.prefixes app]. rewrite <- ?app_assoc. cbn [app]. rewrite <- ?app_assoc.
  cbn [app]. reflexivity.
Qed.

End PlainPaths.

(** ** Claims on the files of a job *)

Section JobFiles.

Context (E : Env).

(** Writing the output never removes a directory. *)
Lemma write_output_dirs output_file content w r w' :
  write_output E output_file content w = (r, w') ->
  forall p, fs w !! p = Some Os.Dir -> fs w' !! p = Some Os.Dir.
Proof.
  unfold write_output, bind, open_w, write. intros H p Hp.
  destruct (fs_call E (EvOpen output_file) _ w) as [r1 w1] eqn:E1.
  apply fs_call_spec in E1 as (_ & F1).
  assert (D1 : fs w1 !! p = Some Os.Dir /\ (r1 = Ok tt -> p <> output_file)).
  { destruct (fault E (trace w ++ [EvOpen output_file])).
    - destruct F1 as [-> ->]. split; [exact Hp|discriminate].
    - destruct F1 as [-> ->].
      destruct (Os.open_w output_file (fs w)) as [r0 f0] eqn:Eo. apply open_w_spec in Eo.
      cbn [fst snd]. destruct r0 as [e|].
      + subst f0. split; [exact Hp|discriminate].
      + destruct Eo as [-> Hn]. assert (p <> output_file) by (intros ->; congruence).
        split; [|auto]. rewrite lookup_insert_ne by congruence. exact Hp. }
  destruct D1 as [D1 N1].
  destruct r1 as [[]|e1]; [|injection H as <- <-; exact D1].
  apply fs_call_spec in H as (_ & F2).
  destruct (fault E (trace w1 ++ [EvWrite output_file content])).
  - destruct F2 as [_ ->]. exact D1.
  - destruct F2 as [-> _]. unfold Os.write. cbn [snd].
    rewrite lookup_insert_ne by (specialize (N1 eq_refl); congruence). exact D1.
Qed.

End JobFiles.

Lemma last_two {A} (l : list A) (a b d : A) : List.last (l ++ [a; b]) d = b.
Proof.
  induction l as [|x l IH]; [reflexivity|].
  cbn [app]. destruct (l ++ [a; b]) eqn:Eq; [destruct l; discriminate|].
  cbn [List.last]. exact IH.
Qed.

(** C1, as the code has it.  A job that succeeds has written the rewritten
    manifest to the file [os.path.join(country, subdivision, folder_name,
    stream_id + ".m3u8")], whatever was at that path before; the folder and
    the directories above it exist; the outcome carries that path.  When
    the four components are plain names the path is
    country/subdivision/folder_name/stream_id.m3u8. *)
Theorem success_writes_m3u8_file (E : Env)
  (stream_id referer country subdivision folder_name : str) (w : World) (out : Outcome)
  (w' : World) :
  download_stream_manifest E stream_id referer country subdivision folder_name w = (out, w') ->
  success out = true ->
  let output_file := output_file_of country subdivision folder_name stream_id in
  file_path out = Some output_file
  /\ (exists url m3u8_text content,
        m3u8_url out = Some url
        /\ rewrite (url_checks E) m3u8_text url = Ok content
        /\ fs w' !! output_file = Some (Os.File content)
        /\ List.last (trace w') EvCreateScraper = EvWrite output_file content)
  /\ (forall p, In p (Os.prefixes [] (folder_path_of country subdivision folder_name)) ->
        fs w' !! p = Some Os.Dir)
  /\ (plain country = true -> plain subdivision = true -> plain folder_name = true ->
      plain stream_id = true ->
      output_file = country ++ lit "/" ++ subdivision ++ lit "/" ++ folder_name
                    ++ lit "/" ++ stream_id ++ lit ".m3u8"
      /\ Os.prefixes [] (folder_path_of country subdivision folder_name)
         = [country; country ++ lit "/" ++ subdivision;
            country ++ lit "/" ++ subdivision ++ lit "/" ++ folder_name]).
Proof.
  intros H Hs output_file. apply download_ends in H.
  inversion H; subst; try discriminate. clear Hs.
  match goal with
  | H1 : fetch_embed_page _ _ _ _ _ = _, H2 : fetch_m3u8 _ _ _ _ = _,
    H3 : write_output _ _ _ _ = _, H4 : rewrite _ _ _ = _ |- _ =>
      rename H1 into F1; rename H2 into F2; rename H3 into F3; rename H4 into R
  end.
  apply fetch_embed_page_spec in F1 as (_ & _ & D1 & O1).
  destruct (O1 _ eq_refl) as (_ & Hf & Hm). specialize (D1 Hf).
  apply scraper_get_spec in F2 as (_ & S2 & _).
  pose proof (write_output_dirs _ _ _ _ _ _ F3) as Hd.
  apply write_output_spec in F3 as (_ & F3). destruct (F3 eq_refl) as (S3 & N3 & T3).
  split; [reflexivity|]. split; [|split].
  - exists url, (text m3u8_response), content. split; [reflexivity|]. split; [exact R|].
    split; [rewrite S3; apply lookup_insert_eq|].
    rewrite T3. apply last_two.
  - intros p Hp. apply Hd. rewrite S2, D1.
    destruct (Os.makedirs _ (fs w)) as [r0 f0] eqn:Em. apply makedirs_spec in Em.
    cbn [fst snd] in *. subst r0. apply Em; [reflexivity|exact Hp].
  - intros P1 P2 P3 P4. split.
    + apply output_file_plain; assumption.
    + apply prefixes_folder_path; assumption.
Qed.

Lemma success_writes_m3u8_file_witness :
  success (fst (example_run example_env empty_world)) = true
  /\ file_path (fst (example_run example_env empty_world)) = Some (lit "TR/53/rize/abc.m3u8")
  /\ fs (snd (example_run example_env empty_world)) !! lit "TR/53/rize" = Some Os.Dir.
Proof.
  assert (Hs : success (fst (example_run example_env empty_world)) = true)
    by (vm_compute; reflexivity).
  pose proof (success_writes_m3u8_file example_env (lit "abc") (lit "https://example.com/")
                (lit "TR") (lit "53") (lit "rize") empty_world _ _
                (surjective_pairing (example_run example_env empty_world)) Hs)
    as (Hp & _ & Hd & _).
  split; [exact Hs|]. split; [rewrite Hp; vm_compute; reflexivity|].
  apply Hd. vm_compute. auto.
Defined.

(** C1 as stated fails: the file is not named stream_id.manifest. *)
Lemma output_file_not_manifest :
  ~ (forall (E : Env) (stream_id referer country subdivision folder_name : str)
            (w : World) (out : Outcome) (w' : World),
       download_stream_manifest E stream_id referer country subdivision folder_name w
       = (out, w') ->
       success out = true ->
       file_path out = Some (country ++ lit "/" ++ subdivision ++ lit "/" ++ folder_name
                             ++ lit "/" ++ stream_id ++ lit ".manifest")).
Proof.
  intros H.
  specialize (H example_env (lit "abc") (lit "https://example.com/")
                (lit "TR") (lit "53") (lit "rize") empty_world _ _
                (surjective_pairing (example_run example_env empty_world))
                ltac:(vm_compute; reflexivity)).
  vm_compute in H. discriminate.
Qed.




(** ** Claims on the batch loop *)

Section Console.

Context (E : Env).

Lemma print_ok text w : console E text = None -> print E text w = (Ok tt, w).
Proof. unfold print. intros ->. reflexivity. Qed.





End Console.


Section Batch.

Context (E : Env) (delay : N).












(** From here on the console accepts every text. *)
Hypothesis quiet : forall text, console E text = None.






End Batch.



(** C9 as stated fails: on a console that cannot encode the check mark of
    line 199 the batch ends after the first job that succeeds, with the
    error of the console; the later jobs are not attempted and no summary
    is returned. *)
Lemma batch_stops_at_console_error :
  (exists e w', process_all_streams latin1_env example_batch 2 empty_world = (Raise e, w')
                /\ List.filter is_start_or_sleep (trace w') = [start_of (job_of "one")])
  /\ ~ (forall (E : Env) (jobs : list Stream) (delay : N) (w : World),
          exists summary w' evs,
            process_all_streams E jobs delay w = (Ok summary, w')
            /\ total summary = List.length jobs
            /\ trace w' = trace w ++ evs
            /\ List.filter is_start_or_sleep evs
               = intersperse (EvSleep delay) (List.map start_of jobs)).
Proof.
  assert (R : exists e w',
             process_all_streams latin1_env example_batch 2 empty_world = (Raise e, w')
             /\ List.filter is_start_or_sleep (trace w') = [start_of (job_of "one")]).
  { eexists _, _. split; vm_compute; reflexivity. }
  split; [exact R|].
  intros H. destruct R as (e & w' & R & _).
  destruct (H latin1_env example_batch 2%N empty_world) as (summary & w2 & evs & H1 & _).
  rewrite R in H1. discriminate.
Qed.

(** ** More on the locator *)

Section LocatorMore.

Lemma find_some (ps : list Re.pattern) html r :
  find_m3u8_url ps html = Some r -> exists p, In p ps /\ Re.search p html = Some r.
Proof.
  induction ps as [|q ps IH]; simpl; [discriminate|].
  destruct (Re.search q html) as [r'|] eqn:E.
  - intros H. injection H as ->. exists q. auto.
  - intros H. destruct (IH H) as (p & Hp & Hs). exists p. auto.
Qed.

Lemma mt_chr_cons k p c s g :
  Re.mt (Re.Chr k :: p) (c :: s) g
  = if Re.test k c then Re.mt p s (Re.push g c) else None.
Proof. reflexivity. Qed.

Lemma mt_star_cons k p c s g :
  Re.mt (Re.Star k :: p) (c :: s) g
  = if Re.test k c
    then match Re.mt (Re.Star k :: p) s (Re.push g c) with
         | Some r => Some r
         | None => Re.mt p (c :: s) g
         end
    else Re.mt p (c :: s) g.
Proof. reflexivity. Qed.

Lemma mt_star_none k p s g :
  Re.mt (Re.Star k :: p) s g = None -> Re.mt p s g = None.
Proof.
  destruct s as [|c s]; [auto|]. rewrite mt_star_cons.
  destruct (Re.test k c); [|auto].
  destruct (Re.mt (Re.Star k :: p) s (Re.push g c)); [discriminate|auto].
Qed.

(** A star can always take a run of characters of its class when the
    rest of the pattern matches after the run. *)
Lemma mt_star_complete k p s w : forall g,
  Forall (fun c => Re.test k c = true) w ->
  Re.mt p s (pushes g w) <> None ->
  Re.mt (Re.Star k :: p) (w ++ s) g <> None.
Proof.
  induction w as [|c w IH]; intros g Hw Hm.
  - intros H. apply Hm. apply mt_star_none in H. exact H.
  - inversion Hw as [|? ? Hc Hw']; subst. cbn [app]. rewrite mt_star_cons, Hc.
    specialize (IH (Re.push g c) Hw' Hm).
    destruct (Re.mt (Re.Star k :: p) (w ++ s) (Re.push g c)); [discriminate|congruence].
Qed.

Lemma lower_literal p c : Str.lower_char c = p -> Re.test (Re.Literal p) c = true.
Proof.
  unfold Str.lower_char, Re.test, Re.literal_ignorecase. intros H.
  destruct ((65 <=? c)%N && (c <=? 90)%N) eqn:E.
  - apply andb_true_iff in E as [E1 E2]. apply N.leb_le in E1, E2. subst p.
    apply orb_true_iff; left. apply orb_true_iff; left. apply orb_true_iff; left.
    apply orb_true_iff; right.
    rewrite N.eqb_refl, andb_true_r. apply andb_true_iff. split; apply N.leb_le; lia.
  - subst p. rewrite N.eqb_refl. reflexivity.
Qed.

(** A text that holds the extension splits around an occurrence of it. *)
Lemma has_m3u8_split u :
  has_m3u8 u = true ->
  exists x c1 c2 c3 c4 c5 y,
    u = x ++ [c1; c2; c3; c4; c5] ++ y
    /\ Re.test (Re.Literal 46) c1 = true /\ Re.test (Re.Literal 109) c2 = true
    /\ Re.test (Re.Literal 51) c3 = true /\ Re.test (Re.Literal 117) c4 = true
    /\ Re.test (Re.Literal 56) c5 = true.
Proof.
  unfold has_m3u8, Str.lower. intros H. apply infix_spec in H as (x' & y' & H).
  apply map_eq_app in H as (x & r & -> & Hx & H).
  apply map_eq_app in H as (m & y & -> & Hm & Hy).
  destruct m as [|c1 [|c2 [|c3 [|c4 [|c5 [|c6 m]]]]]]; try discriminate.
  injection Hm as H1 H2 H3 H4 H5.
  exists x, c1, c2, c3, c4, c5, y. split; [reflexivity|].
  repeat split; apply lower_literal; assumption.
Qed.

Lemma not_dquote_test c : c <> Re.dquote -> Re.test Re.not_dquote c = true.
Proof.
  intros H. unfold Re.test, Re.not_dquote. cbn [existsb andb negb orb].
  destruct (N.eqb_spec c Re.dquote); [contradiction|reflexivity].
Qed.

Lemma not_dquote_test_inv c : Re.test Re.not_dquote c = true -> c <> Re.dquote.
Proof.
  unfold Re.test, Re.not_dquote. cbn [existsb andb negb orb]. intros H ->.
  rewrite N.eqb_refl in H. discriminate.
Qed.

Lemma Forall_not_dquote w : ~ In Re.dquote w -> Forall (fun c => Re.test Re.not_dquote c = true) w.
Proof.
  induction w as [|c w IH]; intros H; constructor.
  - apply not_dquote_test. intros ->. apply H. left; reflexivity.
  - apply IH. intros Hin. apply H. right; exact Hin.
Qed.

Lemma Forall_not_dquote_inv w :
  Forall (fun c => Re.test Re.not_dquote c = true) w -> ~ In Re.dquote w.
Proof.
  induction 1 as [|c w Hc Hw IH]; [intros []|].
  intros [H|H]; [apply (not_dquote_test_inv c Hc); congruence|exact (IH H)].
Qed.

(** The first pattern matches at the start of an attribute whose value
    has no double quote and holds the extension. *)
Lemma mt_src_attribute_some u post :
  ~ In Re.dquote u -> has_m3u8 u = true ->
  Re.mt pattern_src_dquote (src_attribute u ++ post) (false, []) <> None.
Proof.
  intros Hq Hm. apply has_m3u8_split in Hm as (x & c1 & c2 & c3 & c4 & c5 & y & -> & T1 & T2 & T3 & T4 & T5).
  assert (Hx : ~ In Re.dquote x) by (intros H; apply Hq, in_or_app; left; exact H).
  assert (Hy : ~ In Re.dquote y).
  { intros H. apply Hq, in_or_app. right. apply in_or_app. right. exact H. }
  let p := eval vm_compute in pattern_src_dquote in change pattern_src_dquote with p.
  unfold src_attribute.
  change (lit "src=") with [115%N; 114%N; 99%N; 61%N]. change Re.dquote with 34%N.
  cbn [app]. rewrite <- !app_assoc. cbn [app].
  do 5 (rewrite mt_chr_cons; match goal with |- context [Re.test ?k ?c] =>
          change (Re.test k c) with true end; cbv iota).
  cbn [Re.push fst snd].
  change (Re.mt (Re.GroupOpen :: ?p) ?s ?g) with (Re.mt p s (true, [])).
  apply mt_star_complete; [apply Forall_not_dquote, Hx|]. rewrite pushes_open.
  cbn [app]. rewrite !mt_chr_cons, T1, T2, T3, T4, T5. cbn [Re.push fst snd].
  apply mt_star_complete; [apply Forall_not_dquote, Hy|]. rewrite pushes_open.
  cbn [Re.mt]. cbn [app]. change (Re.test (Re.Literal 34) 34) with true. cbv iota.
  discriminate.
Qed.

Ltac mt_step H :=
  lazymatch type of H with
  | Re.mt (Re.Chr _ :: _) _ _ = Some _ =>
      let c := fresh "c" in let s := fresh "s" in let Ht := fresh "Ht" in
      apply mt_chr in H as (c & s & -> & Ht & H); cbn [Re.push fst snd] in H
  | Re.mt (Re.Star _ :: _) _ _ = Some _ =>
      let w := fresh "w" in let s := fresh "s" in let Hw := fresh "Hw" in
      apply mt_star in H as (w & s & -> & Hw & H); rewrite ?pushes_open in H
  | Re.mt (Re.GroupOpen :: ?p) ?s ?g = Some ?r =>
      change (Re.mt p s (true, []) = Some r) in H
  | Re.mt (Re.GroupClose :: ?p) ?s ?g = Some ?r =>
      change (Re.mt p s (false, snd g) = Some r) in H; cbn [snd] in H
  | Re.mt [] _ _ = Some _ =>
      apply mt_nil in H; cbn [snd] in H;
      repeat (progress (rewrite ?rev_app_distr, ?rev_involutive, ?app_nil_r in H;
                        cbn [rev app] in H; rewrite <- ?app_assoc in H; cbn [app] in H))
  end.

Lemma literal_not_dquote p c :
  Re.test (Re.Literal p) c = true -> p <> Re.dquote -> c <> Re.dquote.
Proof.
  unfold Re.test, Re.literal_ignorecase, Re.dquote. intros H Hp ->.
  repeat (apply orb_true_iff in H as [H|H]).
  - apply N.eqb_eq in H. congruence.
  - apply andb_true_iff in H as [H Hc]. apply andb_true_iff in H as [Ha Hb].
    apply N.leb_le in Ha. apply N.eqb_eq in Hc. lia.
  - apply andb_true_iff in H as [_ H]. apply orb_true_iff in H as [H|H];
      apply N.eqb_eq in H; discriminate.
  - apply andb_true_iff in H as [_ H]. apply N.eqb_eq in H. discriminate.
  - apply andb_true_iff in H as [_ H]. apply N.eqb_eq in H. discriminate.
Qed.

(** What the first pattern captures: the text between the double quote
    after src= and the next double quote. *)
Lemma capture_src_dquote_exact s r :
  Re.mt pattern_src_dquote s (false, []) = Some r ->
  exists c1 c2 c3 c4 s0,
    s = c1 :: c2 :: c3 :: c4 :: Re.dquote :: r ++ Re.dquote :: s0
    /\ ~ In Re.dquote r.
Proof.
  intros H.
  let p := eval vm_compute in pattern_src_dquote in change pattern_src_dquote with p in H.
  repeat mt_step H. rewrite ?rev_involutive in H. subst.
  apply literal_exact in Ht3; [|reflexivity]. apply literal_exact in Ht9; [|reflexivity].
  subst. exists c, c0, c1, c2, s0. split.
  - cbn [app]. rewrite <- !app_assoc. reflexivity.
  - apply Forall_not_dquote_inv in Hw, Hw0.
    apply literal_not_dquote in Ht4, Ht5, Ht6, Ht7, Ht8; try discriminate.
    intros Hin. apply in_app_or in Hin as [Hin|Hin]; [exact (Hw Hin)|].
    repeat (destruct Hin as [Hin|Hin]; [congruence|]). exact (Hw0 Hin).
Qed.

(** Two texts cut at their first double quote agree before it. *)
Lemma first_dquote_unique (a a' b b' : list N) :
  a ++ Re.dquote :: b = a' ++ Re.dquote :: b' ->
  ~ In Re.dquote a -> ~ In Re.dquote a' -> a = a'.
Proof.
  revert a'. induction a as [|c a IH]; intros [|c' a'] H Ha Ha'.
  - reflexivity.
  - injection H as H _. exfalso. apply Ha'. left. congruence.
  - injection H as H _. exfalso. apply Ha. left. congruence.
  - injection H as -> H. f_equal. apply IH; [exact H| |].
    + intros Hin. apply Ha. right; exact Hin.
    + intros Hin. apply Ha'. right; exact Hin.
Qed.

Lemma mt_src_attribute u post :
  ~ In Re.dquote u -> has_m3u8 u = true ->
  Re.mt pattern_src_dquote (src_attribute u ++ post) (false, []) = Some u.
Proof.
  intros Hq Hm. pose proof (mt_src_attribute_some u post Hq Hm) as Hs.
  destruct (Re.mt pattern_src_dquote (src_attribute u ++ post) (false, [])) as [r|] eqn:E;
    [|congruence].
  apply capture_src_dquote_exact in E as (c1 & c2 & c3 & c4 & s0 & E & Hr).
  unfold src_attribute in E. change (lit "src=") with [115%N; 114%N; 99%N; 61%N] in E.
  cbn [app] in E. rewrite <- !app_assoc in E. cbn [app] in E.
  injection E as _ _ _ _ E.
  f_equal. symmetry. eapply first_dquote_unique; eassumption.
Qed.

Lemma search_src_attribute pre u post :
  ~ In Re.dquote pre -> ~ In Re.dquote u -> has_m3u8 u = true ->
  Re.search pattern_src_dquote (pre ++ src_attribute u ++ post) = Some u.
Proof.
  intros Hp Hq Hm. induction pre as [|c pre IH].
  - apply search_hit, mt_src_attribute; assumption.
  - change ((c :: pre) ++ src_attribute u ++ post)
      with (c :: (pre ++ src_attribute u ++ post)).
    rewrite search_skip; [apply IH; intros H; apply Hp; right; exact H|].
    destruct (Re.mt pattern_src_dquote _ _) as [r|] eqn:E; [exfalso|reflexivity].
    apply src_dquote_fifth in E.
    unfold src_attribute in E. change (lit "src=") with [115%N; 114%N; 99%N; 61%N] in E.
    destruct pre as [|c1 [|c2 [|c3 [|c4 pre]]]]; try (cbn in E; discriminate).
    cbn in E. apply Hp. rewrite <- E. right. right. right. right. left. reflexivity.
Qed.

Lemma search_mt p text r :
  Re.search p text = Some r ->
  exists a s, text = a ++ s /\ Re.mt p s (false, []) = Some r.
Proof.
  induction text as [|c text IH]; simpl; intros H.
  - destruct (Re.mt p [] (false, [])) eqn:E; [|discriminate].
    injection H as ->. exists [], []. auto.
  - destruct (Re.mt p (c :: text) (false, [])) eqn:E.
    + injection H as ->. exists [], (c :: text). auto.
    + destruct (IH H) as (a & s & -> & Hm). exists (c :: a), s. auto.
Qed.

Lemma url_start_intro c0 c1 c2 c3 rest :
  Re.test (Re.Literal 104) c0 = true -> Re.test (Re.Literal 116) c1 = true ->
  Re.test (Re.Literal 116) c2 = true -> Re.test (Re.Literal 112) c3 = true ->
  Str.startswith (lit "://") rest = true
  \/ (exists c4 rest', rest = c4 :: rest' /\ Str.startswith (lit "://") rest' = true) ->
  url_start (c0 :: c1 :: c2 :: c3 :: rest).
Proof.
  intros H0 H1 H2 H3 Hr.
  apply literal_lower in H0, H1, H2, H3; try discriminate; try reflexivity.
  split.
  - unfold Str.lower. cbn [List.map]. rewrite H0, H1, H2, H3. reflexivity.
  - destruct Hr as [Hr|(c4 & rest' & -> & Hr)]; [left|right]; exact Hr.
Qed.

Lemma capture_url_dquote_start s r :
  Re.mt pattern_url_dquote s (false, []) = Some r -> url_start r.
Proof.
  intros H.
  let q := eval vm_compute in pattern_url_dquote in change pattern_url_dquote with q in H.
  do 6 mt_step H.
  apply mt_opt in H as [(c4 & s4 & -> & Ht4 & H)|H]; cbn [Re.push fst snd] in H;
    repeat mt_step H; rewrite ?rev_involutive in H; subst;
    repeat match goal with
           | Hl : Re.test (Re.Literal 58) _ = true |- _ =>
               apply literal_exact in Hl; [subst|reflexivity]
           | Hl : Re.test (Re.Literal 47) _ = true |- _ =>
               apply literal_exact in Hl; [subst|reflexivity]
           end;
    (apply url_start_intro; [assumption..|]).
  - right. eexists _, _. split; [reflexivity|]. reflexivity.
  - left. reflexivity.
Qed.

Lemma capture_url_bare_start s r :
  Re.mt pattern_url_bare s (false, []) = Some r -> url_start r.
Proof.
  intros H.
  let q := eval vm_compute in pattern_url_bare in change pattern_url_bare with q in H.
  do 5 mt_step H.
  apply mt_opt in H as [(c4 & s4 & -> & Ht4 & H)|H]; cbn [Re.push fst snd] in H;
    repeat mt_step H; rewrite ?rev_involutive in H; subst;
    repeat match goal with
           | Hl : Re.test (Re.Literal 58) _ = true |- _ =>
               apply literal_exact in Hl; [subst|reflexivity]
           | Hl : Re.test (Re.Literal 47) _ = true |- _ =>
               apply literal_exact in Hl; [subst|reflexivity]
           end;
    (apply url_start_intro; [assumption..|]).
  - right. eexists _, _. split; [reflexivity|]. reflexivity.
  - left. reflexivity.
Qed.

End LocatorMore.

(** X1.  Whatever the loop over the patterns finds is a piece of the
    document, not empty, that holds the extension .m3u8 in some case.  So
    the test [if not m3u8_url] after the loop is true only when no pattern
    matched, and [locate] returns what the loop found. *)
Theorem locate_result_in_text (html : str) :
  (forall r, find_m3u8_url m3u8_patterns html = Some r ->
     r <> [] /\ has_m3u8 r = true /\ exists a b, html = a ++ r ++ b)
  /\ locate html = find_m3u8_url m3u8_patterns html
  /\ (locate html = None <-> forall p, In p m3u8_patterns -> Re.search p html = None).
Proof.
  assert (F : forall r, find_m3u8_url m3u8_patterns html = Some r ->
                r <> [] /\ has_m3u8 r = true /\ exists a b, html = a ++ r ++ b).
  { intros r E. apply find_some in E as (p & Hp & Hs).
    assert (Hc : capture_ok p).
    { pose proof capture_ok_patterns as Hall. rewrite Forall_forall in Hall.
      apply Hall, list_elem_of_In, Hp. }
    split; [eapply search_nonempty; eassumption|]. eapply search_capture; eassumption. }
  assert (L : locate html = find_m3u8_url m3u8_patterns html).
  { unfold locate. destruct (find_m3u8_url m3u8_patterns html) as [[|c r]|] eqn:E;
      try reflexivity. destruct (F _ eq_refl) as [Hne _]. congruence. }
  split; [exact F|]. split; [exact L|]. rewrite L. split.
  - intros Hn p Hp. destruct (Re.search p html) as [r|] eqn:E; [|reflexivity].
    exfalso. revert Hn Hp E. generalize m3u8_patterns.
    induction l as [|q l IH]; cbn [find_m3u8_url In]; [tauto|].
    intros Hn [->|Hp] E; [rewrite E in Hn; discriminate|].
    destruct (Re.search q html); [discriminate|]. eapply IH; eassumption.
  - apply find_none.
Qed.

Lemma locate_result_in_text_witness :
  example_url <> [] /\ has_m3u8 example_url = true
  /\ exists a b, example_page = a ++ example_url ++ b.
Proof.
  apply (proj1 (locate_result_in_text example_page) example_url). vm_compute. reflexivity.
Defined.

(** X2.  When the first double quote of a document opens the value of a src
    attribute, and that value holds the extension, [locate] returns the
    value, whatever follows the attribute. *)
Theorem locate_finds_src_attribute (pre u post : str) :
  ~ In Re.dquote pre -> ~ In Re.dquote u -> has_m3u8 u = true ->
  locate (pre ++ src_attribute u ++ post) = Some u.
Proof.
  intros Hp Hq Hm. unfold locate, m3u8_patterns. cbn [find_m3u8_url].
  rewrite search_src_attribute by assumption.
  destruct u as [|c u]; [discriminate|reflexivity].
Qed.

Lemma locate_finds_src_attribute_witness :
  locate (lit "<iframe " ++ src_attribute (lit "/live/Cam1.M3U8?token=abc") ++ lit "></iframe>")
  = Some (lit "/live/Cam1.M3U8?token=abc").
Proof.
  apply locate_finds_src_attribute.
  - vm_compute. intros H. repeat (destruct H as [H|H]; [discriminate|]). exact H.
  - vm_compute. intros H. repeat (destruct H as [H|H]; [discriminate|]). exact H.
  - vm_compute. reflexivity.
Defined.

(** X3.  A URL that [locate] finds outside a src attribute (neither of the
    first two patterns matches) is absolute: it starts with http in some
    case, then ://, with at most one character in between. *)
Theorem locate_outside_src_is_absolute (html u : str) :
  Re.search pattern_src_dquote html = None ->
  Re.search pattern_src_squote html = None ->
  locate html = Some u ->
  Str.startswith (lit "http") (Str.lower u) = true
  /\ (Str.startswith (lit "://") (skipn 4 u) = true
      \/ Str.startswith (lit "://") (skipn 5 u) = true).
Proof.
  unfold locate, m3u8_patterns. cbn [find_m3u8_url]. intros -> -> H.
  destruct (Re.search pattern_url_dquote html) as [r|] eqn:E3.
  - destruct r as [|c r]; [discriminate|]. injection H as <-.
    apply search_mt in E3 as (a & s & _ & Hm). eapply capture_url_dquote_start, Hm.
  - destruct (Re.search pattern_url_bare html) as [r|] eqn:E4; [|discriminate].
    destruct r as [|c r]; [discriminate|]. injection H as <-.
    apply search_mt in E4 as (a & s & _ & Hm). eapply capture_url_bare_start, Hm.
Qed.

Lemma locate_outside_src_is_absolute_witness :
  Str.startswith (lit "http") (Str.lower (lit "HTTPS://cdn.example/live.m3u8")) = true.
Proof.
  apply (locate_outside_src_is_absolute
           (lit "var player = { file: 'HTTPS://cdn.example/live.m3u8' };")
           (lit "HTTPS://cdn.example/live.m3u8"));
    vm_compute; reflexivity.
Defined.

(** ** More on the rewriter *)

Section RewriterMore.

Context (K : UrlChecks) (base : str).

Lemma relative_spec line :
  relative line = true <-> blank line = false /\ comment line = false /\ absolute line = false.
Proof.
  unfold relative. rewrite !andb_true_iff, !negb_true_iff. tauto.
Qed.

Lemma not_relative_spec line :
  relative line = false <-> blank line = true \/ comment line = true \/ absolute line = true.
Proof.
  unfold relative. destruct (blank line), (comment line), (absolute line); simpl;
    intuition discriminate.
Qed.

Lemma process_line_not_relative line :
  relative line = false -> process_line K base line = Ok (Str.strip line).
Proof.
  intros H. apply not_relative_spec in H as [H|[H|H]].
  - apply process_line_blank_comment. left; exact H.
  - apply process_line_blank_comment. right; exact H.
  - apply process_line_absolute, H.
Qed.

Lemma process_line_is_relative line :
  relative line = true -> process_line K base line = Url.urljoin K base (Str.strip line).
Proof.
  intros H. apply relative_spec in H as (H1 & H2 & H3). apply process_line_relative; assumption.
Qed.

Lemma split_sep_app sep a b :
  Str.split sep (a ++ sep :: b) = Str.split sep a ++ Str.split sep b.
Proof.
  induction a as [|c a IH]; cbn [app Str.split].
  - rewrite N.eqb_refl. reflexivity.
  - destruct (c =? sep)%N; [rewrite IH; reflexivity|].
    rewrite IH. pose proof (split_nonempty sep a) as Hn.
    destruct (Str.split sep a); [congruence|reflexivity].
Qed.

Lemma join_app sep l1 l2 :
  l1 <> [] -> l2 <> [] ->
  Str.join sep (l1 ++ l2) = Str.join sep l1 ++ sep :: Str.join sep l2.
Proof.
  intros H1 H2. induction l1 as [|x l1 IH]; [congruence|].
  destruct l1 as [|y l1].
  - cbn [app]. destruct l2; [congruence|reflexivity].
  - change (Str.join sep ((x :: y :: l1) ++ l2))
      with (x ++ sep :: Str.join sep ((y :: l1) ++ l2)).
    rewrite IH by discriminate.
    change (Str.join sep (x :: y :: l1)) with (x ++ sep :: Str.join sep (y :: l1)).
    rewrite <- app_assoc. reflexivity.
Qed.

Lemma process_lines_app l1 : forall l2 acc,
  process_lines K base (l1 ++ l2) acc
  = rbind (process_lines K base l1 acc) (fun acc' => process_lines K base l2 acc').
Proof.
  induction l1 as [|l l1 IH]; intros l2 acc; [reflexivity|].
  cbn [app process_lines]. destruct (process_line K base l); [|reflexivity].
  cbn [rbind]. apply IH.
Qed.

Lemma process_lines_acc ls : forall acc,
  process_lines K base ls acc
  = rbind (process_lines K base ls []) (fun outs => Ok (acc ++ outs)).
Proof.
  induction ls as [|l ls IH]; intros acc; cbn [process_lines rbind].
  - rewrite app_nil_r. reflexivity.
  - destruct (process_line K base l) as [o|e]; [|reflexivity]. cbn [rbind app].
    rewrite IH, (IH [o]).
    destruct (process_lines K base ls []); cbn [rbind]; [|reflexivity].
    rewrite <- app_assoc. reflexivity.
Qed.

Lemma process_lines_nonempty ls outs :
  ls <> [] -> process_lines K base ls [] = Ok outs -> outs <> [].
Proof.
  intros Hne H. apply process_lines_ok in H as (o & -> & H).
  inversion H; subst; [congruence|discriminate].
Qed.

End RewriterMore.

(** X4.  A text whose lines are already trimmed and are blank, comments or
    URLs that start with http:// or https:// is returned as it is, whatever
    the base is: the base is not even parsed. *)
Theorem rewrite_keeps_absolute_text (K : UrlChecks) (t base : str) :
  Forall (fun line => Str.strip line = line /\ relative line = false) (lines t) ->
  rewrite K t base = Ok t.
Proof.
  intros H. apply rewrite_ok. exists (lines t). split.
  - induction H as [|l ls [Hs Hr] Hls IH]; constructor; [|exact IH].
    rewrite process_line_not_relative by exact Hr. rewrite Hs. reflexivity.
  - symmetry. apply join_split.
Qed.

Lemma rewrite_keeps_absolute_text_witness :
  rewrite no_checks (lit "#EXTM3U" ++ newline :: lit "https://cdn.example/a.ts" ++ [newline])
          (lit "//[not a url")
  = Ok (lit "#EXTM3U" ++ newline :: lit "https://cdn.example/a.ts" ++ [newline]).
Proof.
  apply rewrite_keeps_absolute_text. vm_compute.
  repeat constructor.
Defined.

(** X5.  [rewrite] raises exactly when [urljoin] raises on a line it has to
    resolve, and the exception is that of the first such line. *)
Theorem rewrite_raises_first_bad_line (K : UrlChecks) (t base : str) (e : exn) :
  rewrite K t base = Raise e <->
  exists (i : nat) line,
    lines t !! i = Some line /\ relative line = true
    /\ Url.urljoin K base (Str.strip line) = Raise e
    /\ forall (j : nat) l, (j < i)%nat -> lines t !! j = Some l ->
         exists o, process_line K base l = Ok o.
Proof.
  unfold rewrite. fold (lines t).
  assert (G : forall ls acc,
    process_lines K base ls acc = Raise e <->
    exists (i : nat) line,
      ls !! i = Some line /\ relative line = true
      /\ Url.urljoin K base (Str.strip line) = Raise e
      /\ forall (j : nat) l, (j < i)%nat -> ls !! j = Some l ->
           exists o, process_line K base l = Ok o).
  { induction ls as [|l ls IH]; intros acc; cbn [process_lines].
    - split; [discriminate|]. intros (i & line & Hi & _). discriminate.
    - destruct (process_line K base l) as [o|e'] eqn:El; cbn [rbind].
      + rewrite IH. split.
        * intros (i & line & Hi & Hr & Hj & Hlow). exists (S i), line.
          split; [exact Hi|]. split; [exact Hr|]. split; [exact Hj|].
          intros [|j] l' Hlt Hl'; [injection Hl' as <-; eauto|].
          apply (Hlow j); [lia|exact Hl'].
        * intros ([|i] & line & Hi & Hr & Hj & Hlow).
          -- injection Hi as <-. rewrite process_line_is_relative in El by exact Hr.
             congruence.
          -- exists i, line. split; [exact Hi|]. split; [exact Hr|]. split; [exact Hj|].
             intros j l' Hlt Hl'. apply (Hlow (S j)); [lia|exact Hl'].
      + split.
        * intros H. injection H as ->. exists 0%nat, l. split; [reflexivity|].
          destruct (relative l) eqn:Er.
          -- rewrite process_line_is_relative in El by exact Er.
             split; [reflexivity|]. split; [exact El|]. intros j l' Hlt. lia.
          -- rewrite process_line_not_relative in El by exact Er. discriminate.
        * intros ([|i] & line & Hi & Hr & Hj & Hlow).
          -- injection Hi as <-. rewrite process_line_is_relative in El by exact Hr.
             congruence.
          -- destruct (Hlow 0%nat l) as [o Ho]; [lia|reflexivity|congruence]. }
  rewrite <- (G (lines t) []).
  destruct (process_lines K base (lines t) []); cbn [rbind]; split; congruence.
Qed.

Lemma rewrite_raises_first_bad_line_witness :
  rewrite no_checks (lit "#EXTM3U" ++ newline :: lit "//[") example_base
  = Raise Url.invalid_ipv6.
Proof.
  apply rewrite_raises_first_bad_line. exists 1%nat, (lit "//[").
  split; [vm_compute; reflexivity|]. split; [vm_compute; reflexivity|].
  split; [vm_compute; reflexivity|].
  intros [|j] l Hj Hl; [|lia]. vm_compute in Hl. injection Hl as <-.
  eexists. vm_compute. reflexivity.
Defined.

(** X6.  The rewriter works line by line: the rewrite of two texts joined
    by a newline is the rewrite of the first, a newline, the rewrite of the
    second; it raises when the first raises, or else when the second
    does. *)
Theorem rewrite_concat (K : UrlChecks) (t1 t2 base : str) :
  rewrite K (t1 ++ newline :: t2) base
  = match rewrite K t1 base with
    | Raise e => Raise e
    | Ok out1 =>
        match rewrite K t2 base with
        | Raise e => Raise e
        | Ok out2 => Ok (out1 ++ newline :: out2)
        end
    end.
Proof.
  unfold rewrite. rewrite split_sep_app, process_lines_app.
  destruct (process_lines K base (Str.split newline t1) []) as [o1|e1] eqn:E1;
    cbn [rbind]; [|reflexivity].
  rewrite process_lines_acc.
  destruct (process_lines K base (Str.split newline t2) []) as [o2|e2] eqn:E2;
    cbn [rbind]; [|reflexivity].
  f_equal. apply join_app.
  - eapply process_lines_nonempty; [apply split_nonempty|exact E1].
  - eapply process_lines_nonempty; [apply split_nonempty|exact E2].
Qed.

Section NoRelativeLeft.

Context (K : UrlChecks).

Lemma split_scheme_default u d :
  fst (Url.split_scheme u d) = d
  \/ (fst (Url.split_scheme u d) = fst (Url.split_scheme u [])
      /\ Url.nonempty (fst (Url.split_scheme u [])) = true).
Proof.
  unfold Url.split_scheme.
  destruct (Str.cut (ch ":") u) as [[[|c pre] post]|]; try (left; reflexivity).
  destruct (Url.is_ascii_alpha c && forallb Url.scheme_char (c :: pre));
    [right; split; reflexivity|left; reflexivity].
Qed.

(** Against a base that starts with http:// or https://, a reference that
    [urljoin] returns as it is has a scheme of its own. *)
Lemma urljoin_absolute_base_scheme base url r :
  Str.startswith (lit "http://") base = true \/ Str.startswith (lit "https://") base = true ->
  url <> [] ->
  Url.urljoin K base url = Ok r ->
  (r = url /\ own_scheme url = true)
  \/ Str.startswith (lit "http://") r = true \/ Str.startswith (lit "https://") r = true.
Proof.
  intros Hb Hne H.
  destruct (urljoin_absolute_base K base url r Hb Hne H) as [Hr|Hr]; [|right; exact Hr].
  unfold Url.urljoin in H.
  destruct base as [|b0 base]; [destruct Hb as [Hb|Hb]; discriminate|].
  destruct url as [|u0 url]; [congruence|].
  destruct (Url.urlparse K (b0 :: base) []) as [pb|] eqn:Eb; cbn [rbind] in H; [|discriminate].
  destruct (Url.urlparse K (u0 :: url) (Url.scheme pb)) as [pr|] eqn:Er;
    cbn [rbind] in H; [|discriminate].
  assert (Hsb : Url.scheme pb = lit "http" \/ Url.scheme pb = lit "https").
  { destruct Hb as [Hb|Hb]; [left; eapply base_scheme_http|right; eapply base_scheme_https];
      eassumption. }
  apply urlparse_scheme in Er.
  assert (Hd : Url.remove_unsafe
                 (Str.rstrip_by Url.c0_or_space (Str.lstrip_by Url.c0_or_space (Url.scheme pb)))
               = Url.scheme pb)
    by (destruct Hsb as [-> | ->]; reflexivity).
  rewrite Hd in Er.
  destruct (split_scheme_default
              (Url.remove_unsafe (Str.lstrip_by Url.c0_or_space (u0 :: url)))
              (Url.scheme pb)) as [Hs|[Hs Hn]].
  - (* the scheme of the reference is that of the base: it is resolved *)
    rewrite Hs in Er.
    assert (Ht : negb (Str.eqb (Url.scheme pr) (Url.scheme pb))
                 || negb (Url.mem (Url.scheme pr) Url.uses_relative) = false).
    { rewrite Er. unfold Str.eqb. rewrite bool_decide_eq_true_2 by reflexivity.
      destruct Hsb as [-> | ->]; reflexivity. }
    rewrite Ht in H. right.
    assert (Hsr : Url.scheme pr = lit "http" \/ Url.scheme pr = lit "https")
      by (rewrite Er; exact Hsb).
    assert (Hall : forall p, Url.scheme p = Url.scheme pr ->
              Str.startswith (lit "http://") (Url.urlunparse p) = true
              \/ Str.startswith (lit "https://") (Url.urlunparse p) = true).
    { intros p Hp. pose proof (urlunparse_http p) as Hu. rewrite Hp in Hu.
      specialize (Hu Hsr). destruct Hsr as [E|E]; rewrite E in Hu; [left|right]; exact Hu. }
    destruct (Url.mem (Url.scheme pr) Url.uses_netloc && Url.nonempty (Url.netloc pr));
      [injection H as <-; apply Hall; reflexivity|].
    destruct (negb (Url.nonempty (Url.path pr)) && negb (Url.nonempty (Url.params pr)));
      injection H as <-; apply Hall; reflexivity.
  - left. split; [exact Hr|]. unfold own_scheme. exact Hn.
Qed.

End NoRelativeLeft.

(** X7.  Against a base that starts with http:// or https:// no relative
    reference is left: every line of the output is empty, a comment, a URL
    that starts with http:// or https://, or a reference that came with a
    scheme of its own (such as mailto:) and was kept. *)
Theorem rewrite_leaves_no_relative (K : UrlChecks) (t base out : str) :
  Str.startswith (lit "http://") base = true \/ Str.startswith (lit "https://") base = true ->
  rewrite K t base = Ok out ->
  forall (i : nat) o, lines out !! i = Some o ->
    o = [] \/ Str.startswith (lit "#") o = true
    \/ Str.startswith (lit "http://") o = true \/ Str.startswith (lit "https://") o = true
    \/ own_scheme o = true.
Proof.
  intros Hb H i o Ho. apply rewrite_lines in H.
  destruct (Forall2_lookup_r _ _ _ _ _ H Ho) as (l & _ & Hp).
  destruct (relative l) eqn:Er.
  - rewrite process_line_is_relative in Hp by exact Er.
    apply relative_spec in Er as (Eb & _ & _).
    assert (Hne : Str.strip l <> []).
    { unfold blank in Eb. apply negb_false_iff in Eb. intros E. rewrite E in Eb. discriminate. }
    destruct (urljoin_absolute_base_scheme K base _ _ Hb Hne Hp) as [[-> Hs]|[Hs|Hs]];
      [do 4 right; exact Hs|auto|auto].
  - rewrite process_line_not_relative in Hp by exact Er. injection Hp as <-.
    apply not_relative_spec in Er as [Er|[Er|Er]].
    + left. unfold blank in Er. apply negb_true_iff in Er.
      destruct (Str.strip l); [reflexivity|discriminate].
    + right. left. exact Er.
    + unfold absolute in Er. apply orb_true_iff in Er as [Er|Er]; auto.
Qed.

Lemma rewrite_leaves_no_relative_witness :
  Str.startswith (lit "https://") (lit "https://host/path/seg/1.ts") = true
  \/ own_scheme (lit "https://host/path/seg/1.ts") = true.
Proof.
  destruct (rewrite_leaves_no_relative no_checks (lit "#EXTM3U" ++ newline :: lit "seg/1.ts")
              example_base (lit "#EXTM3U" ++ newline :: lit "https://host/path/seg/1.ts")
              ltac:(right; vm_compute; reflexivity) ltac:(vm_compute; reflexivity)
              1%nat (lit "https://host/path/seg/1.ts") ltac:(vm_compute; reflexivity))
    as [H|[H|[H|[H|H]]]]; try (vm_compute in H; discriminate); auto.
Defined.

(** ** More on the job runner *)



(** X9.  The events of a job are a beginning of the sequence: [os.makedirs]
    on the folder, the scraper, the request of the embed page with the
    job's referer, the request of the manifest with the embed URL as
    referer, the opening of the output file, its writing.  A job that
    succeeds has the whole sequence; the requested manifest URL is then the
    one of the outcome and the written content is in the file. *)
Theorem job_events (E : Env) (stream_id referer country subdivision folder_name : str)
  (w : World) (out : Outcome) (w' : World) :
  download_stream_manifest E stream_id referer country subdivision folder_name w = (out, w') ->
  exists url content evs rest,
    trace w' = trace w ++ evs
    /\ evs <> []
    /\ evs ++ rest
       = [EvMakedirs (folder_path_of country subdivision folder_name);
          EvCreateScraper;
          EvGet (embed_url_of stream_id) (embed_headers referer);
          EvGet url [(lit "Referer", embed_url_of stream_id)];
          EvOpen (output_file_of country subdivision folder_name stream_id);
          EvWrite (output_file_of country subdivision folder_name stream_id) content]
    /\ (success out = true ->
        rest = []
        /\ m3u8_url out = Some url
        /\ fs w' !! output_file_of country subdivision folder_name stream_id
           = Some (Os.File content)).
Proof.
  intros H. apply download_ends in H.
  inversion H; subst;
    repeat match goal with
           | F : fetch_embed_page _ _ _ _ _ = (Ok _, _) |- _ =>
               apply fetch_embed_page_spec in F as (_ & _ & _ & F);
               destruct (F _ eq_refl) as (T1 & _); clear F
           | F : fetch_embed_page _ _ _ _ _ = (Raise _, _) |- _ =>
               apply fetch_embed_page_spec in F as ((evs1 & T1 & V1) & _)
           | F : fetch_m3u8 _ _ _ _ = _ |- _ =>
               apply scraper_get_spec in F as (T2 & _)
           end.
  - exists [], [], (EvMakedirs (folder_path_of country subdivision folder_name) :: evs1).
    destruct V1 as [-> | [-> | ->]]; eexists; (split; [exact T1|]); (split; [discriminate|]);
      (split; [reflexivity|]); discriminate.
  - exists [], []. eexists _, _. split; [exact T1|]. split; [discriminate|].
    split; [reflexivity|]. discriminate.
  - exists [], []. eexists _, _. split; [exact T1|]. split; [discriminate|].
    split; [reflexivity|]. discriminate.
  - exists url, []. eexists _, _. split; [rewrite T2, T1, <- app_assoc; reflexivity|].
    split; [discriminate|]. split; [reflexivity|]. discriminate.
  - exists url, []. eexists _, _. split; [rewrite T2, T1, <- app_assoc; reflexivity|].
    split; [discriminate|]. split; [reflexivity|]. discriminate.
  - exists url, []. eexists _, _. split; [rewrite T2, T1, <- app_assoc; reflexivity|].
    split; [discriminate|]. split; [reflexivity|]. discriminate.
  - match goal with
    | F : write_output _ _ _ _ = _ |- _ =>
        apply write_output_spec in F as ((evs3 & T3 & V3 & _) & _)
    end.
    exists url, content.
    destruct V3 as [-> | ->]; eexists _, _;
      (split; [rewrite T3, T2, T1, <- !app_assoc; reflexivity|]);
      (split; [discriminate|]); (split; [reflexivity|]).
    + discriminate.
    + discriminate.
  - match goal with
    | F : write_output _ _ _ _ = _ |- _ =>
        apply write_output_spec in F as (_ & F); destruct (F eq_refl) as (S3 & _ & T3)
    end.
    exists url, content. eexists _, [].
    split; [rewrite T3, T2, T1, <- !app_assoc; reflexivity|].
    split; [discriminate|]. split; [reflexivity|].
    intros _. split; [reflexivity|]. split; [reflexivity|]. rewrite S3. apply lookup_insert_eq.
Qed.

Lemma job_events_witness :
  let r := example_run example_env empty_world in
  exists url content evs rest,
    trace (snd r) = trace empty_world ++ evs
    /\ evs <> []
    /\ evs ++ rest
       = [EvMakedirs (folder_path_of (lit "TR") (lit "53") (lit "rize"));
          EvCreateScraper;
          EvGet (embed_url_of (lit "abc")) (embed_headers (lit "https://example.com/"));
          EvGet url [(lit "Referer", embed_url_of (lit "abc"))];
          EvOpen (output_file_of (lit "TR") (lit "53") (lit "rize") (lit "abc"));
          EvWrite (output_file_of (lit "TR") (lit "53") (lit "rize") (lit "abc")) content]
    /\ (success (fst r) = true ->
        rest = []
        /\ m3u8_url (fst r) = Some url
        /\ fs (snd r) !! output_file_of (lit "TR") (lit "53") (lit "rize") (lit "abc")
           = Some (Os.File content)).
Proof.
  intros r.
  apply (job_events example_env (lit "abc") (lit "https://example.com/")
                    (lit "TR") (lit "53") (lit "rize") empty_world (fst r) (snd r)).
  vm_compute. reflexivity.
Defined.

Section FileSystemSteps.




(** Two texts cut at a slash, with no slash before it, have the same parts. *)
Lemma app_slash_inj (a a' b b' : str) :
  ~ In Os.slash a -> ~ In Os.slash a' ->
  a ++ Os.slash :: b = a' ++ Os.slash :: b' -> a = a' /\ b = b'.
Proof.
  revert a'. induction a as [|x a IH]; intros [|x' a'] Ha Ha' H; cbn [app] in H.
  - injection H as ->. auto.
  - injection H as <- _. exfalso. apply Ha'. left. reflexivity.
  - injection H as -> _. exfalso. apply Ha. left. reflexivity.
  - injection H as <- H. destruct (IH a') as [-> ->]; auto.
    + intros Hin. apply Ha. right. exact Hin.
    + intros Hin. apply Ha'. right. exact Hin.
Qed.


End FileSystemSteps.

Section Frame.

Context (E : Env).

(** [os.makedirs] changes no name outside its list. *)
Lemma mkdirs_frame names p : forall fs0,
  ~ In p names -> snd (Os.mkdirs names fs0) !! p = fs0 !! p.
Proof.
  induction names as [|name names IH]; intros fs0 Hp; [reflexivity|].
  cbn [Os.mkdirs]. assert (Hn : ~ In p names) by (intros H; apply Hp; right; exact H).
  destruct (fs0 !! name) as [[|x]|]; [apply IH, Hn|reflexivity|].
  rewrite IH by exact Hn. apply lookup_insert_ne. intros ->. apply Hp. left. reflexivity.
Qed.

Lemma fetch_embed_page_frame stream_id referer folder_path w r w' p :
  fetch_embed_page E stream_id referer folder_path w = (r, w') ->
  ~ In p (Os.prefixes [] folder_path) -> fs w' !! p = fs w !! p.
Proof.
  unfold fetch_embed_page, bind, os_makedirs, create_scraper, fs_call, scraper_get.
  intros H Hp.
  assert (M : snd (Os.makedirs folder_path (fs w)) !! p = fs w !! p).
  { unfold Os.makedirs. destruct folder_path; [reflexivity|]. apply mkdirs_frame, Hp. }
  destruct (fault E (trace w ++ [EvMakedirs folder_path])); [injection H as <- <-; reflexivity|].
  destruct (Os.makedirs folder_path (fs w)) as [[e|] fs1]; cbn [snd] in M;
    [injection H as <- <-; exact M|].
  cbn [trace fs] in H.
  destruct (fault E ((trace w ++ [EvMakedirs folder_path]) ++ [EvCreateScraper]));
    injection H as <- <-; exact M.
Qed.

Lemma write_output_frame output_file content w r w' p :
  write_output E output_file content w = (r, w') ->
  p <> output_file -> fs w' !! p = fs w !! p.
Proof.
  unfold write_output, bind, open_w, write, fs_call, Os.write. intros H Hp.
  destruct (fault E (trace w ++ [EvOpen output_file])); [injection H as <- <-; reflexivity|].
  destruct (Os.open_w output_file (fs w)) as [r0 fs1] eqn:Eo. apply open_w_spec in Eo.
  destruct r0 as [e|]; [injection H as <- <-; subst fs1; reflexivity|].
  destruct Eo as [-> _]. cbn [trace fs] in H.
  destruct (fault E ((trace w ++ [EvOpen output_file]) ++ [EvWrite output_file content]));
    injection H as <- <-; cbn [fs]; rewrite ?lookup_insert_ne by congruence; reflexivity.
Qed.

(** A job changes no name of the file system but those of its folder, of
    the folders above it and of its output file. *)
Lemma job_frame stream_id referer country subdivision folder_name w out w' p :
  download_stream_manifest E stream_id referer country subdivision folder_name w = (out, w') ->
  ~ In p (Os.prefixes [] (folder_path_of country subdivision folder_name)) ->
  p <> output_file_of country subdivision folder_name stream_id ->
  fs w' !! p = fs w !! p.
Proof.
  intros H Hp Ho. apply download_ends in H.
  inversion H; subst;
    repeat match goal with
           | F : fetch_embed_page _ _ _ _ _ = _ |- _ =>
               apply (fun F => fetch_embed_page_frame _ _ _ _ _ _ p F Hp) in F
           | F : fetch_m3u8 _ _ _ _ = _ |- _ =>
               apply scraper_get_spec in F as (_ & F & _)
           | F : write_output _ _ _ _ = _ |- _ =>
               apply (fun F => write_output_frame _ _ _ _ _ p F Ho) in F
           end; congruence.
Qed.

Lemma proper_plain x : proper x = true -> plain x = true.
Proof.
  unfold proper. intros H. apply andb_true_iff in H as [H _].
  apply andb_true_iff in H as [H _]. apply andb_true_iff in H as [H _]. exact H.
Qed.

End Frame.




(** X11.  Jobs whose country, subdivision, folder name and stream id are
    names of directory entries write apart: the output files of two jobs
    that differ in one of the four have different paths, and a job leaves
    the output file of the other as it was, whatever the world does. *)
Theorem jobs_write_apart (E : Env) (stream_id referer country subdivision folder_name : str)
  (stream_id' country' subdivision' folder_name' : str) (w : World) (out : Outcome)
  (w' : World) :
  proper country = true -> proper subdivision = true ->
  proper folder_name = true -> proper stream_id = true ->
  proper country' = true -> proper subdivision' = true ->
  proper folder_name' = true -> proper stream_id' = true ->
  (country', subdivision', folder_name', stream_id')
  <> (country, subdivision, folder_name, stream_id) ->
  download_stream_manifest E stream_id referer country subdivision folder_name w = (out, w') ->
  output_file_of country' subdivision' folder_name' stream_id'
  <> output_file_of country subdivision folder_name stream_id
  /\ fs w' !! output_file_of country' subdivision' folder_name' stream_id'
     = fs w !! output_file_of country' subdivision' folder_name' stream_id'.
Proof.
  intros Pc Ps Pf Pi Pc' Ps' Pf' Pi' Hne H.
  apply proper_plain in Pc, Ps, Pf, Pi, Pc', Ps', Pf', Pi'.
  assert (D : output_file_of country' subdivision' folder_name' stream_id'
              <> output_file_of country subdivision folder_name stream_id).
  { intros Heq. rewrite !output_file_plain in Heq by assumption.
    apply app_slash_inj in Heq as [-> Heq]; [|apply (plain_inv _ Pc')|apply (plain_inv _ Pc)].
    apply app_slash_inj in Heq as [-> Heq]; [|apply (plain_inv _ Ps')|apply (plain_inv _ Ps)].
    apply app_slash_inj in Heq as [-> Heq]; [|apply (plain_inv _ Pf')|apply (plain_inv _ Pf)].
    apply app_inv_tail in Heq. subst. apply Hne. reflexivity. }
  split; [exact D|].
  apply (job_frame E _ _ _ _ _ _ _ _ _ H); [|exact D].
  rewrite prefixes_folder_path, output_file_plain by assumption.
  destruct (plain_inv _ Pc) as [_ Sc]. destruct (plain_inv _ Ps) as [_ Ss].
  destruct (plain_inv _ Pf) as [_ Sf].
  intros [Heq|[Heq|[Heq|[]]]].
  - apply Sc. rewrite Heq. apply in_or_app. right. left. reflexivity.
  - apply app_slash_inj in Heq as [_ Heq]; [|exact Sc|apply (plain_inv _ Pc')].
    apply Ss. rewrite Heq. apply in_or_app. right. left. reflexivity.
  - apply app_slash_inj in Heq as [_ Heq]; [|exact Sc|apply (plain_inv _ Pc')].
    apply app_slash_inj in Heq as [_ Heq]; [|exact Ss|apply (plain_inv _ Ps')].
    apply Sf. rewrite Heq. apply in_or_app. right. left. reflexivity.
Qed.

Lemma jobs_write_apart_witness :
  let w := {| fs := {[ lit "TR/53/rize/old.m3u8" := Os.File (lit "#EXTM3U") ]}; trace := [] |} in
  fs (snd (example_run example_env w)) !! lit "TR/53/rize/old.m3u8"
  = Some (Os.File (lit "#EXTM3U")).
Proof.
  intros w.
  destruct (jobs_write_apart example_env (lit "abc") (lit "https://example.com/")
              (lit "TR") (lit "53") (lit "rize") (lit "old") (lit "TR") (lit "53") (lit "rize")
              w (fst (example_run example_env w)) (snd (example_run example_env w)))
    as [_ H];
    [vm_compute; reflexivity|vm_compute; reflexivity|vm_compute; reflexivity
    |vm_compute; reflexivity|vm_compute; reflexivity|vm_compute; reflexivity
    |vm_compute; reflexivity|vm_compute; reflexivity
    |vm_compute; discriminate|apply surjective_pairing|].
  replace (lit "TR/53/rize/old.m3u8")
    with (output_file_of (lit "TR") (lit "53") (lit "rize") (lit "old"))
    by (vm_compute; reflexivity).
  rewrite H. vm_compute. reflexivity.
Defined.

Section FolderBlocked.

Lemma mkdirs_blocked p x names : forall fs0,
  In p names -> fs0 !! p = Some (Os.File x) ->
  exists e fs', Os.mkdirs names fs0 = (Some e, fs').
Proof.
  induction names as [|name names IH]; intros fs0 Hin Hp; [destruct Hin|].
  cbn [Os.mkdirs]. destruct (fs0 !! name) as [[|y]|] eqn:L.
  - apply IH; [|exact Hp]. destruct Hin as [->|Hin]; [congruence|exact Hin].
  - eauto.
  - apply IH.
    + destruct Hin as [->|Hin]; [congruence|exact Hin].
    + rewrite lookup_insert_ne by congruence. exact Hp.
Qed.

End FolderBlocked.

(** X12.  When a regular file has the name of the folder of a job, or of a
    folder above it, the job fails at [os.makedirs]: that call is its only
    event, so nothing is requested, and no regular file is created or
    changed. *)
Theorem folder_blocked_fails (E : Env) (stream_id referer country subdivision folder_name : str)
  (w : World) (p x : str) (out : Outcome) (w' : World) :
  let folder_path := folder_path_of country subdivision folder_name in
  In p (Os.prefixes [] folder_path) ->
  fs w !! p = Some (Os.File x) ->
  download_stream_manifest E stream_id referer country subdivision folder_name w = (out, w') ->
  success out = false
  /\ (exists e, message out = error_message e)
  /\ trace w' = trace w ++ [EvMakedirs folder_path]
  /\ same_files (fs w) (fs w').
Proof.
  intros folder_path Hin Hp H.
  destruct (fetch_embed_page E stream_id referer folder_path w) as [r w1] eqn:F.
  assert (R : exists e, r = Raise e /\ trace w1 = trace w ++ [EvMakedirs folder_path]).
  { revert F. unfold fetch_embed_page, bind, os_makedirs, fs_call.
    destruct (fault E (trace w ++ [EvMakedirs folder_path])) as [e|].
    - intros F. injection F as <- <-. eauto.
    - assert (M : exists e fs', Os.makedirs folder_path (fs w) = (Some e, fs')).
      { unfold Os.makedirs. destruct folder_path; [eauto|].
        apply (mkdirs_blocked p x); assumption. }
      destruct M as (e & fs' & ->). intros F. injection F as <- <-. eauto. }
  destruct R as (e & -> & T).
  pose proof (fetch_embed_page_spec E _ _ _ _ _ _ F) as (_ & S & _).
  assert (D : download_stream_manifest E stream_id referer country subdivision folder_name w
              = (failure (error_message e), w1))
    by (apply download_ends; eapply end_embed_raise; exact F).
  rewrite D in H. injection H as <- <-.
  split; [reflexivity|]. split; [exists e; reflexivity|]. split; [exact T|exact S].
Qed.

Lemma folder_blocked_fails_witness :
  let w := {| fs := {[ lit "TR" := Os.File [] ]}; trace := [] |} in
  trace (snd (example_run example_env w))
  = [EvMakedirs (folder_path_of (lit "TR") (lit "53") (lit "rize"))].
Proof.
  intros w.
  edestruct (folder_blocked_fails example_env (lit "abc") (lit "https://example.com/")
               (lit "TR") (lit "53") (lit "rize") w (lit "TR") []
               (fst (example_run example_env w)) (snd (example_run example_env w)))
    as (_ & _ & T & _);
    [vm_compute; auto|reflexivity|apply surjective_pairing|].
  exact T.
Defined.

(** ** More on the batch: the configuration file and its records *)

Section Records.

Context (E : Env) (delay : N).

(** A record with the six keys is read as its job. *)
Lemma read_stream_ok (stream : record) :
  first_missing stream = None -> read_stream stream = Ok (stream_of stream).
Proof.
  unfold first_missing, stream_keys, read_stream, stream_of, getitem. cbn [List.find].
  destruct (stream !! lit "country"); [|discriminate].
  destruct (stream !! lit "subdivision"); [|discriminate].
  destruct (stream !! lit "folder_name"); [|discriminate].
  destruct (stream !! lit "stream_id"); [|discriminate].
  destruct (stream !! lit "name"); [|discriminate].
  destruct (stream !! lit "referer"); [|discriminate].
  reflexivity.
Qed.


(** Over records that have the six keys the loop is the loop over their
    jobs. *)
Lemma process_records_complete len_streams : forall todo idx successful failed failed_streams w,
  Forall (fun stream => first_missing stream = None) todo ->
  process_records E len_streams delay idx todo successful failed failed_streams w
  = process_loop E len_streams delay idx (List.map stream_of todo)
                 successful failed failed_streams w.
Proof.
  induction todo as [|stream todo IH]; intros idx s f fl w H; [reflexivity|].
  inversion H as [|? ? H1 H2]; subst.
  cbn [process_records process_loop List.map]. unfold bind at 1, lift.
  rewrite (read_stream_ok _ H1). unfold bind.
  destruct (process_stream E len_streams delay idx (stream_of stream) s f fl w)
    as [[[[s1 f1] fl1]|e] w1]; [apply IH, H2|reflexivity].
Qed.



End Records.

(** X13.  When the configuration file loads and every record has the six
    keys, [process_all_streams] run from the file is the batch over the
    jobs of the records: it returns the same summary, or raises the same
    error of the console, and leaves the same world. *)
Theorem config_file_batch (E : Env) (json_load : str -> result (list record))
  (config_file : str) (delay : N) (w : World) (records : list record) :
  load_streams json_load config_file (fs w) = Ok records ->
  Forall (fun stream => first_missing stream = None) records ->
  process_config_file E json_load config_file delay w
  = match process_all_streams E (List.map stream_of records) delay w with
    | (Ok summary, w') => (Ok (Some summary), w')
    | (Raise e, w') => (Raise e, w')
    end.
Proof.
  intros Hl Hr. unfold process_config_file, process_all_streams, bind, ret.
  rewrite Hl, length_map.
  destruct (print E _ w) as [[[]|e1] w1]; [|reflexivity].
  destruct (print E _ w1) as [[[]|e2] w2]; [|reflexivity].
  rewrite (process_records_complete E delay _ _ _ _ _ _ _ Hr).
  destruct (process_loop E (List.length records) delay 1 (List.map stream_of records) 0 0 [] w2)
    as [[[[s f] fl]|e3] w3]; [|reflexivity].
  destruct (summarise E (List.length records) s f fl w3) as [[summary|e4] w4]; reflexivity.
Qed.

Lemma config_file_batch_witness :
  exists summary w',
    process_config_file batch_env
      (fun _ => Ok [example_record "one"; example_record "two"; example_record "three"])
      (lit "streams_config.json") 2 example_config_world
    = (Ok (Some summary), w')
    /\ total summary = 3%nat /\ successful summary = 2%nat /\ failed summary = 1%nat.
Proof.
  rewrite (config_file_batch batch_env
             (fun _ => Ok [example_record "one"; example_record "two"; example_record "three"])
             (lit "streams_config.json") 2 example_config_world
             [example_record "one"; example_record "two"; example_record "three"]);
    [|vm_compute; reflexivity
     |repeat constructor; vm_compute; reflexivity].
  eexists _, _. split; [vm_compute; reflexivity|]. vm_compute. auto.
Defined.


